(** * two_agent_tinder_v2: a two-agent dialogue orchestrator

    Shallow embedding of [two_agent_tinder_v2.py] and the properties of
    its termination heuristic, provider adapter, run loop and transcript
    export.

    Python [str] values are sequences of Unicode code points; dictionaries
    are stdpp finite maps; the methods that touch the outside world (remote
    provider, console, file system, wall clock) are functions in a small
    state-and-exception monad over an explicit [World]. *)

From Stdlib Require Import ZArith NArith List String Ascii Bool Lia Floats.
From stdpp Require Import base option list gmap.

Set Default Proof Using "Type".
Open Scope N_scope.

(** ** Python strings *)

(** A [str]: the list of its code points. *)
Definition pystr := list N.

(** Source literals are written as UTF-8 text and decoded to code points. *)
Fixpoint utf8_decode (bs : list N) : pystr :=
  match bs with
  | [] => []
  | b :: r =>
      if b <? 0x80 then b :: utf8_decode r
      else if b <? 0xE0 then
        match r with
        | b1 :: r' => ((b - 0xC0) * 64 + (b1 - 0x80)) :: utf8_decode r'
        | _ => []
        end
      else if b <? 0xF0 then
        match r with
        | b1 :: b2 :: r' =>
            ((b - 0xE0) * 4096 + (b1 - 0x80) * 64 + (b2 - 0x80)) :: utf8_decode r'
        | _ => []
        end
      else
        match r with
        | b1 :: b2 :: b3 :: r' =>
            ((b - 0xF0) * 262144 + (b1 - 0x80) * 4096 + (b2 - 0x80) * 64 + (b3 - 0x80))
              :: utf8_decode r'
        | _ => []
        end
  end.

Definition u (lit : string) : pystr :=
  utf8_decode (map N_of_ascii (list_ascii_of_string lit)).
Arguments u lit%_string.

(** [x or y] on strings and on optional strings: the empty string and
    [None] are falsy. *)
Definition str_or (x y : pystr) : pystr :=
  match x with [] => y | _ => x end.

Definition opt_or (x : option pystr) (y : pystr) : pystr :=
  match x with Some (c :: s) => c :: s | _ => y end.

Definition truthy (x : option pystr) : bool :=
  match x with Some (_ :: _) => true | _ => false end.

(** [str.isspace] for one character, and [\s] of [re]: the interpreter's
    whitespace table. *)
Definition isspace (c : N) : bool :=
  ((0x09 <=? c) && (c <=? 0x0D)) || ((0x1C <=? c) && (c <=? 0x20))
  || (c =? 0x85) || (c =? 0xA0) || (c =? 0x1680)
  || ((0x2000 <=? c) && (c <=? 0x200A))
  || (c =? 0x2028) || (c =? 0x2029) || (c =? 0x202F) || (c =? 0x205F)
  || (c =? 0x3000).

Fixpoint lstrip (s : pystr) : pystr :=
  match s with
  | c :: r => if isspace c then lstrip r else s
  | [] => []
  end.

Definition rstrip (s : pystr) : pystr := rev (lstrip (rev s)).

(** [str.strip()] *)
Definition strip (s : pystr) : pystr := rstrip (lstrip s).

(** ** The Unicode character database, as far as [re] consults it *)

Record CharProps := {
  cp_alnum : bool;      (* Py_UNICODE_ISALNUM *)
  cp_decimal : bool;    (* Py_UNICODE_ISDECIMAL, the class \d *)
  cp_lower : N;         (* Py_UNICODE_TOLOWER *)
  cp_cased : bool;      (* _sre.unicode_iscased *)
  cp_casefix : list N   (* re._casefix._EXTRA_CASES, empty when absent *)
}.

Module Latin1.

Definition in_range (lo hi c : N) : bool := (lo <=? c) && (c <=? hi).

Definition upper_letter (c : N) : bool :=
  in_range 0x41 0x5A c || in_range 0xC0 0xD6 c || in_range 0xD8 0xDE c.

Definition isalnum (c : N) : bool :=
  in_range 0x30 0x39 c || in_range 0x41 0x5A c || in_range 0x61 0x7A c
  || (c =? 0xAA) || in_range 0xB2 0xB3 c || (c =? 0xB5)
  || in_range 0xB9 0xBA c || in_range 0xBC 0xBE c
  || in_range 0xC0 0xD6 c || in_range 0xD8 0xF6 c || in_range 0xF8 0xFF c.

Definition isdecimal (c : N) : bool := in_range 0x30 0x39 c.

Definition tolower (c : N) : N := if upper_letter c then c + 32 else c.

Definition iscased (c : N) : bool :=
  in_range 0x41 0x5A c || in_range 0x61 0x7A c || (c =? 0xB5)
  || in_range 0xC0 0xD6 c || in_range 0xD8 0xF6 c || in_range 0xF8 0xFF c.

Definition casefix (c : N) : list N :=
  if c =? 0x69 then [0x131]
  else if c =? 0x73 then [0x17F]
  else if c =? 0xB5 then [0x3BC]
  else [].

(** The properties of the characters U+0000..U+00FF.  Above U+00FF the
    table is not tabulated here: [props] answers "uncased, not
    alphanumeric" there and is only meant to be read below 256. *)
Definition props (c : N) : CharProps :=
  {| cp_alnum := isalnum c; cp_decimal := isdecimal c;
     cp_lower := tolower c; cp_cased := iscased c;
     cp_casefix := casefix c |}.

End Latin1.

(** A character database is any table that agrees with the Latin-1 block
    above; everything proved below holds for each of them, so for the
    table of whichever interpreter runs the script. *)
Class UnicodeDB := {
  ucd : N -> CharProps;
  ucd_latin1 : forall c, c < 256 -> ucd c = Latin1.props c
}.

Definition latin1_db : UnicodeDB :=
  {| ucd := Latin1.props; ucd_latin1 := fun c _ => eq_refl |}.

(** ** Regular expressions: the fragment of [re] the script uses *)

Inductive regex :=
| Empty
| Literal (c : N)
| InSet (items : list N)                 (* [...] of literal members *)
| Digit                                  (* \d *)
| Whitespace                             (* \s *)
| AtBoundary                             (* \b *)
| Concat (r1 r2 : regex)
| Branch (r1 r2 : regex)                 (* r1|r2 *)
| MaxRepeat (lo : nat) (hi : option nat) (r : regex).

(** A compiled pattern: [re.compile(source, flags)]. *)
Record Pattern := { pat_regex : regex; pat_ignorecase : bool }.

Module Parse.

Definition chr (a : ascii) : N := N_of_ascii a.
Arguments chr a%_char.

Definition is_digit (c : N) : bool := (chr "0" <=? c) && (c <=? chr "9").

Fixpoint number (acc : nat) (s : pystr) : nat * pystr :=
  match s with
  | c :: r =>
      if is_digit c then number (10 * acc + N.to_nat (c - chr "0")) r
      else (acc, s)
  | [] => (acc, [])
  end.

Definition starts_quantifier (s : pystr) : bool :=
  match s with
  | c :: _ => (c =? chr "?") || (c =? chr "*") || (c =? chr "+") || (c =? chr "{")
  | [] => false
  end.

(** A quantifier after the atom [a], if there is one.  Lazy and
    possessive forms are outside the fragment. *)
Definition quantifier (a : regex) (s : pystr) : option (regex * pystr) :=
  let done (q : regex) (rest : pystr) :=
    if starts_quantifier rest then None else Some (q, rest) in
  match s with
  | c :: r =>
      if c =? chr "?" then done (MaxRepeat 0 (Some 1%nat) a) r
      else if c =? chr "*" then done (MaxRepeat 0 None a) r
      else if c =? chr "+" then done (MaxRepeat 1 None a) r
      else if c =? chr "{" then
        match r with
        | d :: _ =>
            if is_digit d then
              let '(lo, r1) := number 0 r in
              match r1 with
              | c1 :: r2 =>
                  if c1 =? chr "}" then done (MaxRepeat lo (Some lo) a) r2
                  else if c1 =? chr "," then
                    match r2 with
                    | c2 :: r3 =>
                        if c2 =? chr "}" then done (MaxRepeat lo None a) r3
                        else if is_digit c2 then
                          let '(hi, r4) := number 0 r2 in
                          match r4 with
                          | c3 :: r5 =>
                              if c3 =? chr "}" then done (MaxRepeat lo (Some hi) a) r5
                              else None
                          | [] => None
                          end
                        else None
                    | [] => None
                    end
                  else None
              | [] => None
              end
            else None
        | [] => None
        end
      else Some (a, s)
  | [] => Some (a, [])
  end.

(** The members of a character set, up to the closing bracket.  Ranges,
    negation and escapes are outside the fragment. *)
Fixpoint set_items (first : bool) (s : pystr) : option (list N * pystr) :=
  match s with
  | [] => None
  | c :: r =>
      if c =? chr "]" then (if first then None else Some ([], r))
      else if (c =? chr "\") || ((c =? chr "^") && first) then None
      else if (c =? chr "-") && negb first
              && negb (match r with c' :: _ => c' =? chr "]" | [] => true end)
      then None
      else
        match set_items false r with
        | Some (items, rest) => Some (c :: items, rest)
        | None => None
        end
  end.

Definition is_special (c : N) : bool :=
  (c =? chr ".") || (c =? chr "^") || (c =? chr "$") || (c =? chr "*")
  || (c =? chr "+") || (c =? chr "?") || (c =? chr "{") || (c =? chr "}")
  || (c =? chr "]").

Fixpoint alternation (fuel : nat) (s : pystr) : option (regex * pystr) :=
  match fuel with
  | O => None
  | S f =>
      match sequence f s with
      | Some (r1, c :: rest) =>
          if c =? chr "|" then
            match alternation f rest with
            | Some (r2, rest') => Some (Branch r1 r2, rest')
            | None => None
            end
          else Some (r1, c :: rest)
      | other => other
      end
  end
with sequence (fuel : nat) (s : pystr) : option (regex * pystr) :=
  match fuel with
  | O => None
  | S f =>
      match s with
      | [] => Some (Empty, [])
      | c :: _ =>
          if (c =? chr "|") || (c =? chr ")") then Some (Empty, s)
          else
            match atom f s with
            | Some (a, rest) =>
                match quantifier a rest with
                | Some (q, rest') =>
                    match sequence f rest' with
                    | Some (Empty, rest'') => Some (q, rest'')
                    | Some (r, rest'') => Some (Concat q r, rest'')
                    | None => None
                    end
                | None => None
                end
            | None => None
            end
      end
  end
with atom (fuel : nat) (s : pystr) : option (regex * pystr) :=
  match fuel with
  | O => None
  | S f =>
      match s with
      | [] => None
      | c :: r =>
          if c =? chr "(" then
            let body :=
              match r with
              | q :: k :: r' =>
                  if (q =? chr "?") then
                    (if k =? chr ":" then Some r' else None)
                  else Some r
              | _ => Some r
              end in
            match body with
            | Some inner =>
                match alternation f inner with
                | Some (g, c' :: rest) =>
                    if c' =? chr ")" then Some (g, rest) else None
                | _ => None
                end
            | None => None
            end
          else if c =? chr "[" then
            match set_items true r with
            | Some (items, rest) => Some (InSet items, rest)
            | None => None
            end
          else if c =? chr "\" then
            match r with
            | e :: rest =>
                if e =? chr "b" then Some (AtBoundary, rest)
                else if e =? chr "d" then Some (Digit, rest)
                else if e =? chr "s" then Some (Whitespace, rest)
                else None
            | [] => None
            end
          else if is_special c then None
          else Some (Literal c, r)
      end
  end.

(** [sre_parse.parse]: the whole source must be consumed. *)
Definition parse (source : pystr) : option regex :=
  match alternation (4 * length source + 4) source with
  | Some (r, []) => Some r
  | _ => None
  end.

End Parse.

(** [re.IGNORECASE] *)
Definition IGNORECASE : bool := true.

(** [re.compile]; a source outside the fragment compiles to a pattern that
    matches nothing (none of the script's patterns is, see
    [MEETING_RE_parses] and [ACCEPTANCE_RE_parses]). *)
Definition re_compile (source : pystr) (flags : bool) : Pattern :=
  {| pat_regex := default (InSet []) (Parse.parse source);
     pat_ignorecase := flags |}.

(** ["sep".join(parts)] *)
Fixpoint join (sep : pystr) (parts : list pystr) : pystr :=
  match parts with
  | [] => []
  | [p] => p
  | p :: rest => p ++ sep ++ join sep rest
  end.

(** ** Matching *)

Section Matching.
Context {U : UnicodeDB}.

Definition tolower (c : N) : N := cp_lower (ucd c).
Definition iscased (c : N) : bool := cp_cased (ucd c).
Definition casefix (c : N) : list N := cp_casefix (ucd c).

(** \w: alphanumeric or underscore. *)
Definition isword (c : N) : bool := cp_alnum (ucd c) || (c =? 0x5F).
Definition isdecimal (c : N) : bool := cp_decimal (ucd c).

Definition mem (c : N) (l : list N) : bool := existsb (N.eqb c) l.

(** LITERAL, and under IGNORECASE, for a cased pattern character,
    LITERAL_UNI_IGNORE / IN_UNI_IGNORE: the subject character is lowered
    and compared with the lowered pattern character and its extra
    cases. *)
Definition literal_matches (ignorecase : bool) (c ch : N) : bool :=
  if ignorecase && iscased c then
    let lo := tolower c in mem (tolower ch) (lo :: casefix lo)
  else ch =? c.

(** IN: under IGNORECASE the set holds the lowered members and their
    extra cases, and the subject character is lowered when a member is
    cased. *)
Definition set_matches (ignorecase : bool) (items : list N) (ch : N) : bool :=
  if ignorecase then
    let charmap := flat_map (fun av => let lo := tolower av in lo :: casefix lo) items in
    if existsb iscased items then mem (tolower ch) charmap else mem ch charmap
  else mem ch items.

(** AT_UNI_BOUNDARY at position [i] of the subject [s]. *)
Definition at_boundary (s : pystr) (i : nat) : bool :=
  let that := match i with
              | O => false
              | S j => from_option isword false (s !! j)
              end in
  let this := from_option isword false (s !! i) in
  xorb this that.

(** [lo] to [hi] repetitions of [step], then the continuation. *)
Fixpoint repeat_match (step : nat -> (nat -> bool) -> bool)
    (lo hi : nat) (i : nat) (k : nat -> bool) : bool :=
  (match lo with O => k i | S _ => false end)
  || match hi with
     | O => false
     | S hi' => step i (fun j => repeat_match step (Nat.pred lo) hi' j k)
     end.

(** Does [r] match [s] from position [i] on, up to some position that
    the continuation [k] accepts?  An unbounded repetition needs at most
    one round per character of the subject. *)
Fixpoint match_at (ic : bool) (r : regex) (s : pystr) (i : nat)
    (k : nat -> bool) : bool :=
  match r with
  | Empty => k i
  | Literal c =>
      match s !! i with
      | Some ch => literal_matches ic c ch && k (S i)
      | None => false
      end
  | InSet items =>
      match s !! i with
      | Some ch => set_matches ic items ch && k (S i)
      | None => false
      end
  | Digit =>
      match s !! i with
      | Some ch => isdecimal ch && k (S i)
      | None => false
      end
  | Whitespace =>
      match s !! i with
      | Some ch => isspace ch && k (S i)
      | None => false
      end
  | AtBoundary => at_boundary s i && k i
  | Concat r1 r2 => match_at ic r1 s i (fun j => match_at ic r2 s j k)
  | Branch r1 r2 => match_at ic r1 s i k || match_at ic r2 s i k
  | MaxRepeat lo hi r1 =>
      repeat_match (match_at ic r1 s) lo
        (match hi with Some h => h | None => (lo + length s)%nat end) i k
  end.

(** [pattern.search(s)] as a truth value: a match starts somewhere. *)
Definition search (p : Pattern) (s : pystr) : bool :=
  existsb (fun i => match_at (pat_ignorecase p) (pat_regex p) s i (fun _ => true))
    (seq 0 (S (length s))).

End Matching.

(** ** The vocabularies (module level) *)

Definition MEETING_PATTERNS : list pystr := [
  u "\b(encontro|encontrar|ver[- ]?nos|combinar|marcar|vamos (?:tomar|beber|jantar)|café|jantar|almoço)\b";
  u "\b(hoje|amanhã|segunda|terça|terça-feira|quarta|quinta|quinta-feira|sexta|sábado|domingo)\b";
  u "\bàs?\s*\d{1,2}[:h]\d{0,2}\b";
  u "\b19:00|18:30|20:00|17:30\b";
  u "\bfunciona|pode ser|combinado|feito|perfeito|fechado\b"
].

(** Both patterns are compiled once, when the module is loaded: the
    definitions hold the compiled form, [MEETING_RE_source] and
    [ACCEPTANCE_RE_source] relate it to the source text. *)
Definition MEETING_RE : Pattern :=
  Eval vm_compute in re_compile (join (u "|") MEETING_PATTERNS) IGNORECASE.

Definition ACCEPTANCE_RE : Pattern :=
  Eval vm_compute in
    re_compile (u "\b(combinado|feito|perfeito|fechado|ok)\b") IGNORECASE.

(** ** Data model *)

Record AgentConfig := {
  name : pystr;
  system_preamble : pystr;
  model : pystr;
  base_url : option pystr;
  api_key_env : option pystr;
  temperature : float;
  max_tokens : Z;
  initial_prompt : option pystr
}.

Record RunConfig := {
  max_messages : Z;
  turn_delay_s : float;
  print_transcript : bool
}.

Record ConversationTurn := { speaker : pystr; text : pystr }.

(** A chat message, [{"role": ..., "content": ...}]. *)
Record Message := { role : pystr; content : pystr }.

(** ** The outside world *)

(** A chat-completion request and the part of the response the script
    reads: for each choice, its [message.content] (possibly [None]). *)
Record Request := {
  req_model : pystr;
  req_messages : list Message;
  req_temperature : float;
  req_max_tokens : Z
}.

Record Response := { choices : list (option pystr) }.

(** Outcome of a computation: a value, an exception derived from
    [Exception] (with its [str()]), or [OutOfFuel] when a loop of the model
    ran out of fuel. *)
Inductive Result (A : Type) : Type :=
| Return (a : A)
| Raise (exc : pystr)
| OutOfFuel.
Arguments Return {A} a.
Arguments Raise {A} exc.
Arguments OutOfFuel {A}.

(** What a call into the [openai] package does: it answers, or raises an
    exception derived from [Exception]. *)
Inductive Outcome (A : Type) : Type :=
| Answer (a : A)
| Failure (exc : pystr).
Arguments Answer {A} a.
Arguments Failure {A} exc.

(** A remote endpoint is an arbitrary function of the traffic it has seen
    and of the request at hand: it answers or fails as it pleases. *)
Definition Client := list Request -> Request -> Outcome Response.

(** [datetime.now()] as far as [strftime("%Y-%m-%d %H:%M")] reads it. *)
Record datetime := { year : N; month : N; day : N; hour : N; minute : N }.

Record World := {
  files : gmap pystr (list N);     (* file system: path to bytes *)
  stdout : list pystr;             (* lines printed so far *)
  now : datetime;                  (* the wall clock *)
  requests : list Request;         (* requests sent to remote endpoints *)
  contexts : list (pystr * list Message)
    (* trace of the calls of [Provider.generate]: agent name and message
       context, in call order; nothing in the program reads it *)
}.

Definition set_files (f : gmap pystr (list N)) (w : World) : World :=
  {| files := f; stdout := stdout w; now := now w; requests := requests w;
     contexts := contexts w |}.
Definition set_stdout (o : list pystr) (w : World) : World :=
  {| files := files w; stdout := o; now := now w; requests := requests w;
     contexts := contexts w |}.
Definition set_requests (r : list Request) (w : World) : World :=
  {| files := files w; stdout := stdout w; now := now w; requests := r;
     contexts := contexts w |}.
Definition set_contexts (c : list (pystr * list Message)) (w : World) : World :=
  {| files := files w; stdout := stdout w; now := now w; requests := requests w;
     contexts := c |}.

(** The process environment read when providers are built. *)
Record Env := {
  HAS_OPENAI : bool;                        (* did [from openai import OpenAI] work *)
  getenv : pystr -> option pystr;           (* os.getenv *)
  OpenAI : pystr -> option pystr -> Outcome Client  (* OpenAI(api_key, base_url) *)
}.

(** ** Effects: state over [World], with exceptions *)

Definition M (A : Type) : Type := World -> Result A * World.

Definition ret {A} (a : A) : M A := fun w => (Return a, w).
Definition raise {A} (exc : pystr) : M A := fun w => (Raise exc, w).

Definition bind {A B} (m : M A) (k : A -> M B) : M B :=
  fun w =>
    match m w with
    | (Return a, w') => k a w'
    | (Raise exc, w') => (Raise exc, w')
    | (OutOfFuel, w') => (OutOfFuel, w')
    end.

Notation "'let*' x ':=' m 'in' k" := (bind m (fun x => k))
  (at level 10, x binder, m at level 200, k at level 200).

(** [try: body / except Exception as exc: handler(exc)] *)
Definition try_except {A} (body : M A) (handler : pystr -> M A) : M A :=
  fun w =>
    match body w with
    | (Raise exc, w') => handler exc w'
    | other => other
    end.

Definition lift {A} (r : Result A) : M A := fun w => (r, w).

(** [print(line)] *)
Definition print (line : pystr) : M unit :=
  fun w => (Return tt, set_stdout (stdout w ++ [line]) w).

(** [time.sleep(seconds)]: only time passes. *)
Definition time_sleep (seconds : float) : M unit := ret tt.

(** [client.chat.completions.create(...)]: the request goes out and the
    endpoint answers or raises. *)
Definition chat_completions_create (client : Client) (req : Request) : M Response :=
  fun w =>
    (match client (requests w) req with
     | Answer resp => Return resp
     | Failure exc => Raise exc
     end,
     set_requests (requests w ++ [req]) w).

Definition record_context (who : pystr) (messages : list Message) : M unit :=
  fun w => (Return tt, set_contexts (contexts w ++ [(who, messages)]) w).

(** [datetime.now()] *)
Definition datetime_now : M datetime := fun w => (Return (now w), w).

(** ** Text files *)

Definition utf8_encode_char (c : N) : option (list N) :=
  if c <? 0x80 then Some [c]
  else if c <? 0x800 then Some [0xC0 + c / 64; 0x80 + c mod 64]
  else if (0xD800 <=? c) && (c <=? 0xDFFF) then None
  else if c <? 0x10000 then
    Some [0xE0 + c / 4096; 0x80 + (c / 64) mod 64; 0x80 + c mod 64]
  else if c <? 0x110000 then
    Some [0xF0 + c / 262144; 0x80 + (c / 4096) mod 64;
          0x80 + (c / 64) mod 64; 0x80 + c mod 64]
  else None.

(** [s.encode("utf-8")]: [None] is UnicodeEncodeError (a lone surrogate). *)
Fixpoint utf8_encode (s : pystr) : option (list N) :=
  match s with
  | [] => Some []
  | c :: r =>
      match utf8_encode_char c, utf8_encode r with
      | Some bs, Some rest => Some (bs ++ rest)
      | _, _ => None
      end
  end.

(** [open(path, "w", encoding="utf-8")] on a path the process may write:
    the file is created or truncated.  The handle is the path; newlines
    are written as they are (POSIX). *)
Definition open_w (path : pystr) : M pystr :=
  fun w => (Return path, set_files (<[path := []]> (files w)) w).

(** [handle.write(s)]: the encoded text is added at the end of the file;
    text that cannot be encoded raises and adds nothing. *)
Definition write (handle : pystr) (s : pystr) : M unit :=
  fun w =>
    match utf8_encode s with
    | Some bs => (Return tt, set_files (alter (fun old => old ++ bs) handle (files w)) w)
    | None => (Raise (u "UnicodeEncodeError"), w)
    end.

(** [for x in xs: body(x)] *)
Fixpoint for_each {A} (xs : list A) (body : A -> M unit) : M unit :=
  match xs with
  | [] => ret tt
  | x :: rest => let* _ := body x in for_each rest body
  end.

Definition nl : pystr := [10].

Definition pad2 (n : N) : pystr := [48 + (n / 10) mod 10; 48 + n mod 10].
Definition pad4 (n : N) : pystr :=
  [48 + (n / 1000) mod 10; 48 + (n / 100) mod 10; 48 + (n / 10) mod 10; 48 + n mod 10].

(** [d.strftime("%Y-%m-%d %H:%M")] *)
Definition strftime_Ymd_HM (d : datetime) : pystr :=
  pad4 (year d) ++ u "-" ++ pad2 (month d) ++ u "-" ++ pad2 (day d)
  ++ u " " ++ pad2 (hour d) ++ u ":" ++ pad2 (minute d).

(** ** Sequences and dictionaries *)

(** [l[i]] with Python's negative indices; [None] is IndexError. *)
Definition getitem {A} (l : list A) (i : Z) : option A :=
  let n := Z.of_nat (length l) in
  let j := if (i <? 0)%Z then (i + n)%Z else i in
  if ((0 <=? j) && (j <? n))%Z then l !! Z.to_nat j else None.

Definition tuple_getitem {A} (t : A * A) (i : Z) : M A :=
  match getitem [fst t; snd t] i with
  | Some a => ret a
  | None => raise (u "IndexError")
  end.

Definition dict_getitem {V} (d : gmap pystr V) (k : pystr) : M V :=
  match d !! k with
  | Some v => ret v
  | None => raise (u "KeyError")
  end.

(** ** Provider *)

Record Provider := {
  cfg : AgentConfig;
  _client : option Client;
  _enabled : bool
}.

Definition Provider_init (env : Env) (c : AgentConfig) : Provider :=
  let key := if truthy (api_key_env c)
             then getenv env (opt_or (api_key_env c) []) else None in
  if HAS_OPENAI env && truthy key then
    match OpenAI env (opt_or key [])
            (if truthy (base_url c) then base_url c else None) with
    | Answer client => {| cfg := c; _client := Some client; _enabled := true |}
    | Failure _ => {| cfg := c; _client := None; _enabled := false |}
    end
  else {| cfg := c; _client := None; _enabled := false |}.

Definition role_system : pystr := Eval vm_compute in u "system".
Definition role_user : pystr := Eval vm_compute in u "user".
Definition role_assistant : pystr := Eval vm_compute in u "assistant".

Definition SUGGEST_TIME : pystr := Eval vm_compute in u "Vamos combinar um café quinta às 19:00?".
Definition SUGGEST_GENERIC : pystr :=
  Eval vm_compute in u "Adoro a energia. Que tal marcarmos algo leve para nos conhecermos?".
Definition NOTE_UNAVAILABLE : pystr := Eval vm_compute in u "(provider unavailable)".
Definition note_error (exc : pystr) : pystr := u "(provider error: " ++ exc ++ u ")".

(** [next((m["content"] for m in reversed(messages) if m["role"] == "user"), "")] *)
Definition last_user_content (messages : list Message) : pystr :=
  match filter (fun m => role m = role_user) (rev messages) with
  | m :: _ => content m
  | [] => []
  end.

Section Program.
Context {U : UnicodeDB}.

Definition _stub (messages : list Message) (note : pystr) : pystr :=
  let last_user := last_user_content messages in
  let suggestion :=
    if search MEETING_RE last_user then SUGGEST_TIME else SUGGEST_GENERIC in
  strip (suggestion ++ u " " ++ note).

Definition generate (self : Provider) (messages : list Message) : M pystr :=
  (* the call is noted in the trace; the method's own code follows *)
  let* _ := record_context (name (cfg self)) messages in
  match _enabled self, _client self with
  | true, Some client =>
      try_except
        (let* resp :=
           chat_completions_create client
             {| req_model := model (cfg self);
                req_messages := messages;
                req_temperature := temperature (cfg self);
                req_max_tokens := max_tokens (cfg self) |} in
         let content :=
           match choices resp with c :: _ => c | [] => Some [] end in
         ret (strip (opt_or content [])))
        (fun exc => ret (_stub messages (note_error exc)))
  | _, _ => ret (_stub messages NOTE_UNAVAILABLE)
  end.

(** ** The termination detector *)

Definition meeting_agreed (turns : list ConversationTurn) : bool :=
  if (Z.of_nat (length turns) <? 2)%Z then false
  else
    match getitem turns (-2), getitem turns (-1) with
    | Some previous_turn, Some latest_turn =>
        let previous := text previous_turn in
        let latest := text latest_turn in
        let intent := search MEETING_RE previous in
        let acceptance := search ACCEPTANCE_RE latest || search MEETING_RE latest in
        intent && acceptance
    | _, _ => false   (* IndexError: excluded by the length test *)
    end.

End Program.

(** ** TwoAgentChat *)

Record TwoAgentChat := {
  agents : AgentConfig * AgentConfig;
  run : RunConfig;
  providers : gmap pystr Provider;
  turns : list ConversationTurn
}.

Definition set_turns (t : list ConversationTurn) (self : TwoAgentChat) : TwoAgentChat :=
  {| agents := agents self; run := run self; providers := providers self;
     turns := t |}.

(** [__init__]: the dictionary display inserts the first agent's provider,
    then the second's; a repeated key keeps the later value. *)
Definition TwoAgentChat_init (env : Env) (agent_a agent_b : AgentConfig)
    (r : RunConfig) : TwoAgentChat :=
  {| agents := (agent_a, agent_b);
     run := r;
     providers :=
       <[name agent_b := Provider_init env agent_b]>
         (<[name agent_a := Provider_init env agent_a]> ∅);
     turns := [] |}.

Definition DEFAULT_KICKOFF : pystr :=
  Eval vm_compute in u "Inicia a conversa com uma abertura natural e descontraída.".

Definition replay (who : AgentConfig) (turn : ConversationTurn) : Message :=
  {| role := if bool_decide (speaker turn = name who)
             then role_assistant else role_user;
     content := text turn |}.

Definition build_messages_for (self : TwoAgentChat) (who : AgentConfig)
    : list Message :=
  let messages := [{| role := role_system; content := system_preamble who |}] in
  match turns self with
  | [] =>
      let kickoff := opt_or (initial_prompt who) DEFAULT_KICKOFF in
      messages ++ [{| role := role_user; content := kickoff |}]
  | _ :: _ => messages ++ map (replay who) (turns self)
  end.

Definition append_turn (self : TwoAgentChat) (who : AgentConfig) (txt : pystr)
    : M TwoAgentChat :=
  let cleaned := strip txt in
  let self := set_turns (turns self ++ [{| speaker := name who; text := cleaned |}]) self in
  let* _ := (if print_transcript (run self)
             then print (name who ++ u ": " ++ cleaned) else ret tt) in
  ret self.

Section Orchestrator.
Context {U : UnicodeDB}.

(** The [while] loop of [run_until_meeting_or_max], one unit of fuel per
    round; [OutOfFuel] when the fuel runs out before the loop ends. *)
Fixpoint run_loop (fuel : nat) (self : TwoAgentChat)
    (current_index turns_taken : Z) : M TwoAgentChat :=
  if (turns_taken <? max_messages (run self))%Z then
    match fuel with
    | O => lift OutOfFuel
    | S fuel' =>
        let* agent := tuple_getitem (agents self) current_index in
        let* provider := dict_getitem (providers self) (name agent) in
        let prompt_messages := build_messages_for self agent in
        let* generated := generate provider prompt_messages in
        let reply := str_or generated [] in
        let* self := append_turn self agent (str_or reply (u "...")) in
        let turns_taken := (turns_taken + 1)%Z in
        if meeting_agreed (turns self) then ret self
        else
          let* _ := (if (0 <? turn_delay_s (run self))%float
                     then time_sleep (turn_delay_s (run self)) else ret tt) in
          run_loop fuel' self (1 - current_index)%Z turns_taken
    end
  else ret self.

(** The loop runs at most [max_messages] rounds: that much fuel is given. *)
Definition run_until_meeting_or_max (self : TwoAgentChat) : M TwoAgentChat :=
  run_loop (Z.to_nat (max_messages (run self))) self 0%Z 0%Z.

End Orchestrator.

Definition export_markdown (self : TwoAgentChat) (path title : pystr)
    (subtitle : option pystr) : M TwoAgentChat :=
  let* t := datetime_now in
  let stamp := strftime_Ymd_HM t in
  let* handle := open_w path in
  let* _ := write handle (u "# " ++ title ++ nl ++ nl) in
  let* _ := (if truthy subtitle
             then write handle (u "_" ++ opt_or subtitle [] ++ u "_" ++ nl ++ nl)
             else ret tt) in
  let* _ := write handle (u "> Transcript gerado em " ++ stamp
                          ++ nl ++ nl ++ u "---" ++ nl ++ nl) in
  let* _ := for_each (turns self) (fun turn =>
              write handle (u "**" ++ speaker turn ++ u "**: "
                            ++ strip (text turn) ++ nl ++ nl)) in
  ret self.

(** A whole run, as [main] does it: build the orchestrator, then loop. *)
Definition chat_run {U : UnicodeDB} (env : Env) (agent_a agent_b : AgentConfig)
    (r : RunConfig) : M TwoAgentChat :=
  run_until_meeting_or_max (TwoAgentChat_init env agent_a agent_b r).

(** ** Vocabulary of the statements *)

(** The characters a pattern mentions. *)
Fixpoint regex_chars (r : regex) : list N :=
  match r with
  | Literal c => [c]
  | InSet items => items
  | Concat r1 r2 | Branch r1 r2 => regex_chars r1 ++ regex_chars r2
  | MaxRepeat _ _ r1 => regex_chars r1
  | _ => []
  end.

(** Text within U+0000..U+00FF. *)
Definition latin1_text (s : pystr) : bool := forallb (fun c => c <? 256) s.

(** The agent whose turn it is when the loop's index is [i]. *)
Definition agent_at (self : TwoAgentChat) (i : Z) : AgentConfig :=
  if (i =? 0)%Z then fst (agents self) else snd (agents self).

(** The turn the loop records for the speaker [who] when [generate]
    returned [generated]. *)
Definition new_turn (who : AgentConfig) (generated : pystr) : ConversationTurn :=
  {| speaker := name who;
     text := strip (str_or (str_or generated []) (u "...")) |}.

(** The object and the world after that turn was appended. *)
Definition with_turn (self : TwoAgentChat) (t : ConversationTurn) : TwoAgentChat :=
  set_turns (turns self ++ [t]) self.

Definition printed (self : TwoAgentChat) (t : ConversationTurn) (w : World) : World :=
  if print_transcript (run self)
  then set_stdout (stdout w ++ [speaker t ++ u ": " ++ text t]) w
  else w.

(** Every agent's name leads to a provider built for that name. *)
Definition wired (self : TwoAgentChat) : Prop :=
  forall i, (i = 0 \/ i = 1)%Z ->
    exists p, providers self !! name (agent_at self i) = Some p
              /\ name (cfg p) = name (agent_at self i).

(** The disabled-mode fallback reply to a context whose last user message
    has no proposal vocabulary. *)
Definition GENERIC_REPLY : pystr := SUGGEST_GENERIC ++ u " " ++ NOTE_UNAVAILABLE.

(** The loop's index after [k] more rounds. *)
Definition index_after (idx : Z) (k : nat) : Z :=
  if Nat.even k then idx else (1 - idx)%Z.

(** What every run of the loop does to the history and to the trace. *)
Definition loop_post (self : TwoAgentChat) (idx taken : Z) (w : World)
    (self' : TwoAgentChat) (w' : World) : Prop :=
  agents self' = agents self /\ run self' = run self
  /\ exists new,
      turns self' = turns self ++ new
      /\ (Z.of_nat (length new) <= Z.max 0 (max_messages (run self) - taken))%Z
      /\ ((taken < max_messages (run self))%Z -> new <> [])
      /\ Forall (fun t => strip (text t) = text t /\ text t <> []) new
      /\ (forall k t, new !! k = Some t ->
            speaker t = name (agent_at self (index_after idx k)))
      /\ contexts w' =
           contexts w ++
           imap (fun k _ =>
                   let who := agent_at self (index_after idx k) in
                   (name who,
                    build_messages_for
                      (set_turns (turns self ++ take k new) self) who)) new.

(** Provider construction leaves the adapter disabled (no credential, no
    [openai] package, or a client that could not be built). *)
Definition disabled (env : Env) (c : AgentConfig) : Prop :=
  _enabled (Provider_init env c) = false.

(** The text the first speaker is given to open the dialogue. *)
Definition kickoff (who : AgentConfig) : pystr :=
  opt_or (initial_prompt who) DEFAULT_KICKOFF.

(** What a run on the local fallback alone does to the history. *)
Definition fallback_post {U : UnicodeDB} (self : TwoAgentChat) (idx taken : Z)
    (w : World) (self' : TwoAgentChat) (w' : World) : Prop :=
  (forall key p, providers self !! key = Some p -> _enabled p = false) ->
  Forall (fun t => text t = GENERIC_REPLY) (turns self) ->
  (turns self = [] -> search MEETING_RE (kickoff (agent_at self idx)) = false) ->
  exists new,
    turns self' = turns self ++ new
    /\ length new = Z.to_nat (max_messages (run self) - taken)
    /\ Forall (fun t => text t = GENERIC_REPLY) new.

(** The bytes a sequence of [write] calls leaves in the file, and whether
    all of them went through: writing stops at the first chunk that cannot
    be encoded. *)
Fixpoint written (chunks : list pystr) : list N * bool :=
  match chunks with
  | [] => ([], true)
  | c :: rest =>
      match utf8_encode c with
      | Some bs => let '(more, ok) := written rest in (bs ++ more, ok)
      | None => ([], false)
      end
  end.

(** The block [export_markdown] writes for one turn. *)
Definition turn_block (turn : ConversationTurn) : pystr :=
  u "**" ++ speaker turn ++ u "**: " ++ strip (text turn) ++ nl ++ nl.

Definition ascii_text (s : pystr) : bool := forallb (fun c => c <? 128) s.

(** The world at a later reading of the clock. *)
Definition set_now (d : datetime) (w : World) : World :=
  {| files := files w; stdout := stdout w; now := d; requests := requests w;
     contexts := contexts w |}.

(** Lower case within Latin-1 (the alphabet of the vocabularies); other
    characters are left as they are. *)
Definition latin1_lower (s : pystr) : pystr := map Latin1.tolower s.

Definition lower_turn (t : ConversationTurn) : ConversationTurn :=
  {| speaker := speaker t; text := latin1_lower (text t) |}.

(** The code points below 256. *)
Definition latin1_block : list N := map N.of_nat (seq 0 256).

(** The history a run ends with, when it returns. *)
Definition recorded (out : Result TwoAgentChat * World)
    : option (list ConversationTurn) :=
  match fst out with
  | Return self => Some (turns self)
  | _ => None
  end.

(** ** Sample configurations *)

Module Demo.

Definition agent (n : pystr) (opening : option pystr) : AgentConfig :=
  {| name := n;
     system_preamble := u "Keep replies short.";
     model := u "small-model";
     base_url := None;
     api_key_env := Some (u "OPENAI_API_KEY");
     temperature := 0.5%float;
     max_tokens := 300;
     initial_prompt := opening |}.

Definition settings (n : Z) : RunConfig :=
  {| max_messages := n; turn_delay_s := 0%float; print_transcript := true |}.

(** No [openai] package and no credentials: both providers are disabled. *)
Definition offline : Env :=
  {| HAS_OPENAI := false;
     getenv := fun _ => None;
     OpenAI := fun _ _ => Failure (u "unreachable") |}.

(** An endpoint whose every call raises. *)
Definition failing_client : Client := fun _ _ => Failure (u "boom").

Definition failing_provider : Provider :=
  {| cfg := agent (u "Rui") None;
     _client := Some failing_client;
     _enabled := true |}.

(** An endpoint that answers every request with blank content, and an
    environment in which both providers reach it. *)
Definition blank_client : Client :=
  fun _ _ => Answer {| choices := [Some (u "   ")] |}.

Definition online : Env :=
  {| HAS_OPENAI := true;
     getenv := fun _ => Some (u "sk-test");
     OpenAI := fun _ _ => Answer blank_client |}.

Definition world : World :=
  {| files := ∅;
     stdout := [];
     now := {| year := 2026; month := 11; day := 4; hour := 9; minute := 30 |};
     requests := [];
     contexts := [] |}.

End Demo.

(** ** Console, traffic and stopping of a run *)

(** The line [append_turn] prints for a turn. *)
Definition transcript_line (t : ConversationTurn) : pystr :=
  speaker t ++ u ": " ++ text t.

(** The request [generate] sends for a context. *)
Definition request_of (p : Provider) (messages : list Message) : Request :=
  {| req_model := model (cfg p);
     req_messages := messages;
     req_temperature := temperature (cfg p);
     req_max_tokens := max_tokens (cfg p) |}.

(** Does [generate] go to the remote endpoint ([self._enabled and
    self._client])? *)
Definition reaches_endpoint (p : Provider) : bool :=
  match _client p with
  | Some _ => _enabled p
  | None => false
  end.

Definition sent (p : Provider) (messages : list Message) : list Request :=
  if reaches_endpoint p then [request_of p messages] else [].

(** Was the turn spoken through a provider that goes to its endpoint? *)
Definition remote_turn (self : TwoAgentChat) (t : ConversationTurn) : bool :=
  match providers self !! speaker t with
  | Some p => reaches_endpoint p
  | None => false
  end.

(** What every run of the loop does to the object and to the world, beside
    the history it records. *)
Definition loop_effects {U : UnicodeDB} (self : TwoAgentChat) (idx taken : Z)
    (w : World) (self' : TwoAgentChat) (w' : World) : Prop :=
  providers self' = providers self
  /\ files w' = files w /\ now w' = now w
  /\ exists new,
      turns self' = turns self ++ new
      /\ stdout w' =
           stdout w ++ (if print_transcript (run self)
                        then map transcript_line new else [])
      /\ (exists reqs,
            requests w' = requests w ++ reqs
            /\ length reqs = length (List.filter (remote_turn self) new)
            /\ Forall (fun q => exists key p messages,
                                  providers self !! key = Some p
                                  /\ q = request_of p messages) reqs)
      /\ (forall k, (0 < k < length new)%nat ->
            meeting_agreed (turns self ++ take k new) = false)
      /\ (length new = Z.to_nat (max_messages (run self) - taken)
          \/ (new <> [] /\ meeting_agreed (turns self') = true)).

(** ** Reading the vocabularies *)

(** The alternatives of a pattern at its top level. *)
Fixpoint alternatives (r : regex) : list regex :=
  match r with
  | Branch r1 r2 => alternatives r1 ++ alternatives r2
  | _ => [r]
  end.

(** A sequence of items, nested as the parser nests it. *)
Fixpoint sequence_of (items : list regex) : regex :=
  match items with
  | [] => Empty
  | [a] => a
  | a :: rest => Concat a (sequence_of rest)
  end.

(** A word of the pattern, letter by letter. *)
Definition word (w : pystr) : regex := sequence_of (map Literal w).

(** The words of [MEETING_PATTERNS] that no [\b] guards on either side:
    [|] binds weaker than the [\b] at the two ends of the fourth and the
    fifth pattern. *)
Definition UNGUARDED_WORDS : list pystr :=
  [u "18:30"; u "20:00"; u "pode ser"; u "combinado"; u "feito"; u "perfeito"].

(** [\bok\b] under IGNORECASE: the one acceptance word that is not a
    proposal word. *)
Definition WORD_OK : Pattern :=
  Eval vm_compute in re_compile (u "\bok\b") IGNORECASE.

(** The disabled-mode fallback reply to a context whose last user message
    has proposal vocabulary. *)
Definition TIME_REPLY : pystr := SUGGEST_TIME ++ u " " ++ NOTE_UNAVAILABLE.

(** ** The transcript document *)

(** The chunks [export_markdown] writes, in order. *)
Definition export_chunks (self : TwoAgentChat) (title : pystr)
    (subtitle : option pystr) (stamp : pystr) : list pystr :=
  [u "# " ++ title ++ nl ++ nl]
  ++ (if truthy subtitle
      then [u "_" ++ opt_or subtitle [] ++ u "_" ++ nl ++ nl] else [])
  ++ [u "> Transcript gerado em " ++ stamp ++ nl ++ nl ++ u "---" ++ nl ++ nl]
  ++ map turn_block (turns self).

(** The text of the document. *)
Definition document (self : TwoAgentChat) (title : pystr)
    (subtitle : option pystr) (stamp : pystr) : pystr :=
  concat (export_chunks self title subtitle stamp).

(** ** The entry point *)

(** [int(s)] and [float(s)] of the interpreter on a string: the number, or
    ValueError. *)
Record Builtins := {
  py_int : pystr -> Outcome Z;
  py_float : pystr -> Outcome float
}.

(** A call into a builtin that may raise. *)
Definition call {A} (o : Outcome A) : M A :=
  match o with
  | Answer a => ret a
  | Failure exc => raise exc
  end.

(** [os.getenv(key, default)] *)
Definition getenv_or (env : Env) (key fallback : pystr) : pystr :=
  match getenv env key with
  | Some v => v
  | None => fallback
  end.

(** [os.getenv(key) or None] *)
Definition getenv_or_none (env : Env) (key : pystr) : option pystr :=
  if truthy (getenv env key) then getenv env key else None.

Definition MAIN_NAME_A : pystr := Eval vm_compute in u "Homem (40)".
Definition MAIN_NAME_B : pystr := Eval vm_compute in u "Mulher (35)".
Definition MAIN_PREAMBLE_A : pystr :=
  Eval vm_compute in
    u "You are a playful Portuguese man in his 40s chatting on Tinder. Keep replies in pt-PT, warm, confident, concise, and always push the interaction forward while staying respectful.".
Definition MAIN_PREAMBLE_B : pystr :=
  Eval vm_compute in
    u "You are a witty Portuguese woman in her mid-30s replying on Tinder. Responde em pt-PT de forma curiosa, divertida e com mensagens curtas.".
Definition MAIN_OPENING_A : pystr :=
  Eval vm_compute in
    u "Estás prestes a enviar a primeira mensagem à tua match. Cria uma abertura leve, divertida e específica o suficiente para parecer autêntica.".
Definition MAIN_TITLE : pystr := Eval vm_compute in u "Do Match ao Cappuccino: Um Diálogo".
Definition MAIN_SUBTITLE : pystr := Eval vm_compute in u "pt-PT".

(** The configurations [main] builds, once the numbers are parsed. *)
Definition main_agent_a (env : Env) (temp : float) (tokens : Z) : AgentConfig :=
  {| name := MAIN_NAME_A;
     system_preamble := MAIN_PREAMBLE_A;
     model := getenv_or env (u "MODEL_A") (u "small-model");
     base_url := getenv_or_none env (u "BASE_URL_A");
     api_key_env :=
       Some (opt_or (getenv env (u "API_KEY_ENV_A")) (u "OPENAI_API_KEY"));
     temperature := temp;
     max_tokens := tokens;
     initial_prompt := Some MAIN_OPENING_A |}.

Definition main_agent_b (env : Env) (temp : float) (tokens : Z) : AgentConfig :=
  {| name := MAIN_NAME_B;
     system_preamble := MAIN_PREAMBLE_B;
     model := getenv_or env (u "MODEL_B") (u "small-model");
     base_url := getenv_or_none env (u "BASE_URL_B");
     api_key_env :=
       Some (opt_or (getenv env (u "API_KEY_ENV_B")) (u "OPENAI_API_KEY"));
     temperature := temp;
     max_tokens := tokens;
     initial_prompt := None |}.

(** [os.getenv("PRINT_TRANSCRIPT", "1") not in {"0", "false", "False"}] *)
Definition main_print_transcript (env : Env) : bool :=
  negb (bool_decide (getenv_or env (u "PRINT_TRANSCRIPT") (u "1")
                     ∈ [u "0"; u "false"; u "False"])).

Definition main_run (env : Env) (budget : Z) (delay : float) : RunConfig :=
  {| max_messages := budget;
     turn_delay_s := delay;
     print_transcript := main_print_transcript env |}.

Definition main_output_path (env : Env) : pystr :=
  getenv_or env (u "OUT_MD") (u "tinder_conversation.md").

(** [main()]: the keyword arguments are evaluated in the order written, so
    the numbers are parsed in that order and the first ValueError leaves
    [main] before anything is built. *)
Definition main {U : UnicodeDB} (py : Builtins) (env : Env) : M unit :=
  let* temp_a := call (py_float py (getenv_or env (u "TEMP_A") (u "0.8"))) in
  let* tokens_a := call (py_int py (getenv_or env (u "TOKENS_A") (u "300"))) in
  let agent_a := main_agent_a env temp_a tokens_a in
  let* temp_b := call (py_float py (getenv_or env (u "TEMP_B") (u "0.8"))) in
  let* tokens_b := call (py_int py (getenv_or env (u "TOKENS_B") (u "300"))) in
  let agent_b := main_agent_b env temp_b tokens_b in
  let* budget := call (py_int py (getenv_or env (u "MAX_MESSAGES") (u "50"))) in
  let* delay := call (py_float py (getenv_or env (u "TURN_DELAY_S") (u "0"))) in
  let run := main_run env budget delay in
  let* chat := chat_run env agent_a agent_b run in
  let output_path := main_output_path env in
  let* _ := export_markdown chat output_path MAIN_TITLE (Some MAIN_SUBTITLE) in
  ret tt.

(** The numbers [main] parses, when all six parse. *)
Record Numbers := {
  temp_a : float; tokens_a : Z;
  temp_b : float; tokens_b : Z;
  budget : Z; delay : float
}.

Definition parse_numbers (py : Builtins) (env : Env) : option Numbers :=
  match py_float py (getenv_or env (u "TEMP_A") (u "0.8")),
        py_int py (getenv_or env (u "TOKENS_A") (u "300")),
        py_float py (getenv_or env (u "TEMP_B") (u "0.8")),
        py_int py (getenv_or env (u "TOKENS_B") (u "300")),
        py_int py (getenv_or env (u "MAX_MESSAGES") (u "50")),
        py_float py (getenv_or env (u "TURN_DELAY_S") (u "0")) with
  | Answer ta, Answer ka, Answer tb, Answer kb, Answer n, Answer d =>
      Some {| temp_a := ta; tokens_a := ka; temp_b := tb; tokens_b := kb;
              budget := n; delay := d |}
  | _, _, _, _, _, _ => None
  end.

(** The first ValueError among the numeric settings, in the order [main]
    evaluates them. *)
Definition first_failure (py : Builtins) (env : Env) : option pystr :=
  let failure {A} (o : Outcome A) (next : option pystr) : option pystr :=
    match o with
    | Failure exc => Some exc
    | Answer _ => next
    end in
  failure (py_float py (getenv_or env (u "TEMP_A") (u "0.8")))
    (failure (py_int py (getenv_or env (u "TOKENS_A") (u "300")))
       (failure (py_float py (getenv_or env (u "TEMP_B") (u "0.8")))
          (failure (py_int py (getenv_or env (u "TOKENS_B") (u "300")))
             (failure (py_int py (getenv_or env (u "MAX_MESSAGES") (u "50")))
                (failure (py_float py (getenv_or env (u "TURN_DELAY_S") (u "0")))
                   None))))).

(** The history of a run of [main]'s agents on the local fallback. *)
Definition offline_history (n : nat) : list ConversationTurn :=
  map (fun k => {| speaker := if Nat.even k then MAIN_NAME_A else MAIN_NAME_B;
                   text := GENERIC_REPLY |}) (seq 0 n).

(** ** More samples *)

Module Sample.

Definition dialogue : TwoAgentChat :=
  {| agents := (Demo.agent (u "Rui") None, Demo.agent (u "Ana") None);
     run := Demo.settings 2;
     providers := ∅;
     turns := [{| speaker := u "Rui"; text := u "Olá!" |};
               {| speaker := u "Ana"; text := u "Até já" |}] |}.

(** A disk with an older transcript and a file of notes. *)
Definition disk : World :=
  set_files (<[u "out.md" := [111; 108; 100]]> (<[u "notes.txt" := [1; 2; 3]]> ∅))
    Demo.world.

(** An interpreter that reads unsigned decimal integers and takes every
    float for zero. *)
Definition builtins : Builtins :=
  {| py_int := fun s =>
       match s with
       | [] => Failure (u "invalid literal for int()")
       | _ :: _ =>
           if forallb Parse.is_digit s
           then Answer (Z.of_nat (fst (Parse.number 0 s)))
           else Failure (u "invalid literal for int()")
       end;
     py_float := fun _ => Answer 0%float |}.

(** An environment without the [openai] package that sets the variables
    in [vars]. *)
Definition offline_with (vars : list (pystr * pystr)) : Env :=
  {| HAS_OPENAI := false;
     getenv := fun key =>
       match List.find (fun kv => bool_decide (fst kv = key)) vars with
       | Some kv => Some (snd kv)
       | None => None
       end;
     OpenAI := fun _ _ => Failure (u "unreachable") |}.

End Sample.

(** * Properties *)

(** ** Trimming *)

Lemma lstrip_idem (s : pystr) : lstrip (lstrip s) = lstrip s.
Proof.
  induction s as [|c r IH]; simpl; [reflexivity|].
  destruct (isspace c) eqn:E; [exact IH|].
  simpl. rewrite E. reflexivity.
Qed.

Lemma lstrip_app_nonspace (x y : pystr) (c : N) :
  isspace c = false -> lstrip (x ++ c :: y) = lstrip x ++ c :: y.
Proof.
  intros Hc. induction x as [|d x IH]; simpl.
  - rewrite Hc. reflexivity.
  - destruct (isspace d); [exact IH | reflexivity].
Qed.

Lemma rstrip_cons_nonspace (c : N) (r : pystr) :
  isspace c = false -> rstrip (c :: r) = c :: rstrip r.
Proof.
  intros Hc. unfold rstrip. simpl.
  rewrite lstrip_app_nonspace by exact Hc.
  rewrite rev_app_distr. reflexivity.
Qed.

Lemma rstrip_idem (s : pystr) : rstrip (rstrip s) = rstrip s.
Proof.
  unfold rstrip. rewrite rev_involutive, lstrip_idem. reflexivity.
Qed.

Lemma lstrip_head (s : pystr) (c : N) (r : pystr) :
  lstrip s = c :: r -> isspace c = false.
Proof.
  induction s as [|d s IH]; simpl; [discriminate|].
  destruct (isspace d) eqn:E; [exact IH|].
  intros [= <- _]. exact E.
Qed.

Lemma strip_cons (s : pystr) (c : N) (r : pystr) :
  lstrip s = c :: r -> strip s = c :: rstrip r.
Proof.
  intros H. unfold strip. rewrite H.
  apply rstrip_cons_nonspace. exact (lstrip_head _ _ _ H).
Qed.

Lemma strip_idem (s : pystr) : strip (strip s) = strip s.
Proof.
  destruct (lstrip s) as [|c r] eqn:E.
  - assert (Hs : strip s = []) by (unfold strip; rewrite E; reflexivity).
    rewrite Hs. reflexivity.
  - pose proof (lstrip_head _ _ _ E) as Hc.
    rewrite (strip_cons _ _ _ E).
    unfold strip. simpl. rewrite Hc.
    rewrite !rstrip_cons_nonspace by exact Hc.
    rewrite rstrip_idem. reflexivity.
Qed.

Lemma lstrip_nonempty (s : pystr) (c : N) :
  In c s -> isspace c = false -> lstrip s <> [].
Proof.
  induction s as [|d s IH]; simpl; [tauto|].
  intros [->|Hin] Hc.
  - rewrite Hc. discriminate.
  - destruct (isspace d); [auto | discriminate].
Qed.

(** A string with a character that is not white space does not trim to
    the empty string. *)
Lemma strip_nonempty (s : pystr) (c : N) :
  In c s -> isspace c = false -> strip s <> [].
Proof.
  intros Hin Hc.
  destruct (lstrip s) as [|d r] eqn:E.
  - exfalso. exact (lstrip_nonempty s c Hin Hc E).
  - rewrite (strip_cons _ _ _ E). discriminate.
Qed.

(** Trimming leaves alone a string that neither starts nor ends with white
    space. *)
Lemma strip_fixed (c : N) (mid : pystr) (d : N) :
  isspace c = false -> isspace d = false ->
  strip (c :: mid ++ [d]) = c :: mid ++ [d].
Proof.
  intros Hc Hd. unfold strip. simpl. rewrite Hc.
  unfold rstrip.
  change (c :: mid ++ [d]) with ((c :: mid) ++ [d]).
  rewrite rev_app_distr. simpl. rewrite Hd.
  change (d :: rev mid ++ [c]) with ([d] ++ rev mid ++ [c]).
  rewrite !rev_app_distr. simpl. rewrite rev_involutive. reflexivity.
Qed.

Section Transport.
Context {U : UnicodeDB}.

Lemma latin1_tolower_bound (c : N) : c < 256 -> Latin1.tolower c < 256.
Proof.
  intros Hc. unfold Latin1.tolower, Latin1.upper_letter, Latin1.in_range.
  destruct (_ || _) eqn:E; [|exact Hc].
  repeat (apply orb_prop in E; destruct E as [E|E]);
    apply andb_prop in E; destruct E as [_ E]; apply N.leb_le in E; lia.
Qed.

Lemma tolower_latin1 (c : N) : c < 256 -> tolower c = @tolower latin1_db c.
Proof. intros Hc. unfold tolower. rewrite ucd_latin1 by exact Hc. reflexivity. Qed.

Lemma iscased_latin1 (c : N) : c < 256 -> iscased c = @iscased latin1_db c.
Proof. intros Hc. unfold iscased. rewrite ucd_latin1 by exact Hc. reflexivity. Qed.

Lemma casefix_latin1 (c : N) : c < 256 -> casefix c = @casefix latin1_db c.
Proof. intros Hc. unfold casefix. rewrite ucd_latin1 by exact Hc. reflexivity. Qed.

Lemma isword_latin1 (c : N) : c < 256 -> isword c = @isword latin1_db c.
Proof. intros Hc. unfold isword. rewrite ucd_latin1 by exact Hc. reflexivity. Qed.

Lemma isdecimal_latin1 (c : N) : c < 256 -> isdecimal c = @isdecimal latin1_db c.
Proof. intros Hc. unfold isdecimal. rewrite ucd_latin1 by exact Hc. reflexivity. Qed.

Lemma lowered_latin1 (c : N) :
  c < 256 ->
  tolower c :: casefix (tolower c)
  = @tolower latin1_db c :: @casefix latin1_db (@tolower latin1_db c).
Proof.
  intros Hc. rewrite (tolower_latin1 c Hc).
  rewrite casefix_latin1; [reflexivity|].
  apply latin1_tolower_bound. exact Hc.
Qed.

Lemma literal_matches_latin1 (ic : bool) (c ch : N) :
  c < 256 -> ch < 256 ->
  literal_matches ic c ch = @literal_matches latin1_db ic c ch.
Proof.
  intros Hc Hch. unfold literal_matches.
  rewrite (iscased_latin1 c Hc), (tolower_latin1 ch Hch), (lowered_latin1 c Hc).
  reflexivity.
Qed.

Lemma set_matches_latin1 (ic : bool) (items : list N) (ch : N) :
  latin1_text items = true -> ch < 256 ->
  set_matches ic items ch = @set_matches latin1_db ic items ch.
Proof.
  intros Hitems Hch. unfold set_matches.
  assert (Hall : forall av, In av items -> av < 256).
  { intros av Hin. unfold latin1_text in Hitems.
    rewrite forallb_forall in Hitems. apply N.ltb_lt. exact (Hitems av Hin). }
  assert (Hmap :
    flat_map (fun av => tolower av :: casefix (tolower av)) items
    = flat_map (fun av => @tolower latin1_db av
                          :: @casefix latin1_db (@tolower latin1_db av)) items).
  { clear Hitems. induction items as [|a l IH]; simpl; [reflexivity|].
    pose proof (lowered_latin1 a (Hall a (or_introl eq_refl))) as E.
    injection E as E1 E2.
    rewrite IH by (intros av Hin; apply Hall; right; exact Hin).
    rewrite E2, E1. reflexivity. }
  assert (Hcased : existsb iscased items = existsb (@iscased latin1_db) items).
  { clear Hitems Hmap. induction items as [|a l IH]; simpl; [reflexivity|].
    rewrite (iscased_latin1 a) by (apply Hall; left; reflexivity).
    rewrite IH by (intros av Hin; apply Hall; right; exact Hin).
    reflexivity. }
  cbv zeta. rewrite Hmap, Hcased, (tolower_latin1 ch Hch). reflexivity.
Qed.

Lemma lookup_latin1 (s : pystr) (i : nat) (ch : N) :
  latin1_text s = true -> s !! i = Some ch -> ch < 256.
Proof.
  intros Hs Hi. unfold latin1_text in Hs. rewrite forallb_forall in Hs.
  apply N.ltb_lt, Hs. apply list_elem_of_In. eapply list_elem_of_lookup_2. exact Hi.
Qed.

Lemma from_option_isword_latin1 (s : pystr) (i : nat) :
  latin1_text s = true ->
  from_option isword false (s !! i) = from_option (@isword latin1_db) false (s !! i).
Proof.
  intros Hs. destruct (s !! i) as [ch|] eqn:E; simpl; [|reflexivity].
  apply isword_latin1. exact (lookup_latin1 s i ch Hs E).
Qed.

Lemma at_boundary_latin1 (s : pystr) (i : nat) :
  latin1_text s = true -> at_boundary s i = @at_boundary latin1_db s i.
Proof.
  intros Hs. unfold at_boundary.
  rewrite (from_option_isword_latin1 s i Hs).
  destruct i as [|j]; [reflexivity|].
  rewrite (from_option_isword_latin1 s j Hs). reflexivity.
Qed.

Lemma repeat_match_ext (step1 step2 : nat -> (nat -> bool) -> bool) :
  (forall i k1 k2, (forall j, k1 j = k2 j) -> step1 i k1 = step2 i k2) ->
  forall hi lo i k1 k2, (forall j, k1 j = k2 j) ->
    repeat_match step1 lo hi i k1 = repeat_match step2 lo hi i k2.
Proof.
  intros Hstep hi. induction hi as [|hi IH]; intros lo i k1 k2 Hk; simpl.
  - rewrite Hk. reflexivity.
  - rewrite Hk. f_equal. apply Hstep. intros j. apply IH. exact Hk.
Qed.

Lemma match_at_latin1 (ic : bool) (s : pystr) (r : regex) :
  latin1_text s = true -> latin1_text (regex_chars r) = true ->
  forall i k1 k2, (forall j, k1 j = k2 j) ->
    match_at ic r s i k1 = @match_at latin1_db ic r s i k2.
Proof.
  intros Hs. induction r as [|c|items| | | |r1 IH1 r2 IH2|r1 IH1 r2 IH2|lo hi r1 IH1];
    intros Hr i k1 k2 Hk; simpl.
  - apply Hk.
  - destruct (s !! i) as [ch|] eqn:E; [|reflexivity].
    rewrite Hk. f_equal. apply literal_matches_latin1.
    + simpl in Hr. apply andb_prop in Hr. apply N.ltb_lt. tauto.
    + exact (lookup_latin1 s i ch Hs E).
  - destruct (s !! i) as [ch|] eqn:E; [|reflexivity].
    rewrite Hk. f_equal. apply set_matches_latin1; [exact Hr|].
    exact (lookup_latin1 s i ch Hs E).
  - destruct (s !! i) as [ch|] eqn:E; [|reflexivity].
    rewrite Hk. f_equal. apply isdecimal_latin1.
    exact (lookup_latin1 s i ch Hs E).
  - destruct (s !! i) as [ch|] eqn:E; [|reflexivity].
    rewrite Hk. reflexivity.
  - rewrite Hk, (at_boundary_latin1 s i Hs). reflexivity.
  - simpl in Hr. unfold latin1_text in Hr. rewrite forallb_app in Hr.
    apply andb_prop in Hr. destruct Hr as [H1 H2].
    apply IH1; [exact H1|]. intros j. apply IH2; [exact H2|exact Hk].
  - simpl in Hr. unfold latin1_text in Hr. rewrite forallb_app in Hr.
    apply andb_prop in Hr. destruct Hr as [H1 H2].
    rewrite (IH1 H1 i k1 k2 Hk), (IH2 H2 i k1 k2 Hk). reflexivity.
  - apply repeat_match_ext; [|exact Hk].
    intros i' k1' k2' Hk'. apply IH1; [exact Hr|exact Hk'].
Qed.

(** On Latin-1 text, searching a Latin-1 pattern gives the same answer
    under every character database. *)
Lemma search_latin1 (p : Pattern) (s : pystr) :
  latin1_text (regex_chars (pat_regex p)) = true -> latin1_text s = true ->
  search p s = @search latin1_db p s.
Proof.
  intros Hp Hs. unfold search.
  induction (seq 0 (S (length s))) as [|i l IH]; simpl; [reflexivity|].
  rewrite IH. f_equal. apply match_at_latin1; auto.
Qed.

End Transport.

Lemma getitem_last2 {A} (init : list A) (x y : A) :
  getitem (init ++ [x; y]) (-2) = Some x /\ getitem (init ++ [x; y]) (-1) = Some y.
Proof.
  unfold getitem. rewrite length_app. simpl length.
  split.
  - replace (-2 + Z.of_nat (length init + 2))%Z with (Z.of_nat (length init)) by lia.
    change (-2 <? 0)%Z with true. cbv iota.
    replace ((0 <=? Z.of_nat (length init))%Z) with true by (symmetry; apply Z.leb_le; lia).
    replace ((Z.of_nat (length init) <? Z.of_nat (length init + 2))%Z) with true
      by (symmetry; apply Z.ltb_lt; lia).
    simpl. rewrite Nat2Z.id. rewrite lookup_app_r by lia.
    rewrite Nat.sub_diag. reflexivity.
  - replace (-1 + Z.of_nat (length init + 2))%Z with (Z.of_nat (S (length init))) by lia.
    change (-1 <? 0)%Z with true. cbv iota.
    replace ((0 <=? Z.of_nat (S (length init)))%Z) with true by (symmetry; apply Z.leb_le; lia).
    replace ((Z.of_nat (S (length init)) <? Z.of_nat (length init + 2))%Z) with true
      by (symmetry; apply Z.ltb_lt; lia).
    simpl andb. cbv iota. rewrite Nat2Z.id. rewrite lookup_app_r by lia.
    replace (S (length init) - length init)%nat with 1%nat by lia. reflexivity.
Qed.

#[local] Arguments u : simpl never.
#[local] Arguments strip : simpl never.
#[local] Arguments search : simpl never.

Section ProgramFacts.
Context {U : UnicodeDB}.

Lemma meeting_agreed_last2 (init : list ConversationTurn) (previous latest : ConversationTurn) :
  meeting_agreed (init ++ [previous; latest])
  = search MEETING_RE (text previous)
    && (search ACCEPTANCE_RE (text latest) || search MEETING_RE (text latest)).
Proof.
  unfold meeting_agreed.
  destruct (getitem_last2 init previous latest) as [-> ->].
  rewrite length_app. simpl length.
  replace ((Z.of_nat (length init + 2) <? 2)%Z) with false
    by (symmetry; apply Z.ltb_ge; lia).
  reflexivity.
Qed.

Lemma meeting_agreed_short (ts : list ConversationTurn) :
  (length ts < 2)%nat -> meeting_agreed ts = false.
Proof.
  intros H. unfold meeting_agreed.
  replace ((Z.of_nat (length ts) <? 2)%Z) with true
    by (symmetry; apply Z.ltb_lt; lia).
  reflexivity.
Qed.

Lemma stub_strip (messages : list Message) (note : pystr) :
  strip (_stub messages note) = _stub messages note.
Proof. unfold _stub. apply strip_idem. Qed.

(** [generate] always returns, with a trimmed string, and leaves its
    call in the trace; it touches neither the files nor the console. *)
Lemma generate_returns (self : Provider) (messages : list Message) (w : World) :
  exists g w',
    generate self messages w = (Return g, w')
    /\ strip g = g
    /\ contexts w' = contexts w ++ [(name (cfg self), messages)]
    /\ files w' = files w /\ stdout w' = stdout w /\ now w' = now w.
Proof.
  unfold generate, bind, record_context.
  destruct (_enabled self); [destruct (_client self) as [client|]|].
  - unfold try_except, bind, chat_completions_create, ret.
    destruct (client _ _) as [resp|exc]; cbv beta iota.
    + eexists _, _. split; [reflexivity|].
      split; [apply strip_idem|]. repeat split.
    + eexists _, _. split; [reflexivity|].
      split; [apply stub_strip|]. repeat split.
  - eexists _, _. split; [reflexivity|].
    split; [apply stub_strip|]. repeat split.
  - eexists _, _. split; [reflexivity|].
    split; [apply stub_strip|]. repeat split.
Qed.

Lemma tuple_getitem_agent (self : TwoAgentChat) (i : Z) (w : World) :
  (i = 0 \/ i = 1)%Z ->
  tuple_getitem (agents self) i w = (Return (agent_at self i), w).
Proof. intros [-> | ->]; reflexivity. Qed.

(** One round of the loop. *)
Lemma run_loop_round (fuel : nat) (self : TwoAgentChat) (idx taken : Z)
    (w : World) (p : Provider) :
  (idx = 0 \/ idx = 1)%Z ->
  (taken < max_messages (run self))%Z ->
  providers self !! name (agent_at self idx) = Some p ->
  exists g w1,
    generate p (build_messages_for self (agent_at self idx)) w = (Return g, w1)
    /\ strip g = g
    /\ run_loop (S fuel) self idx taken w =
         let t := new_turn (agent_at self idx) g in
         let self1 := with_turn self t in
         let w2 := printed self t w1 in
         if meeting_agreed (turns self1) then (Return self1, w2)
         else run_loop fuel self1 (1 - idx)%Z (taken + 1)%Z w2.
Proof.
  intros Hidx Hlt Hp.
  destruct (generate_returns p (build_messages_for self (agent_at self idx)) w)
    as (g & w1 & Hg & Hstrip & _).
  exists g, w1. split; [exact Hg|]. split; [exact Hstrip|].
  cbn [run_loop].
  replace ((taken <? max_messages (run self))%Z) with true
    by (symmetry; apply Z.ltb_lt; exact Hlt).
  unfold bind at 1. rewrite (tuple_getitem_agent self idx w Hidx).
  unfold bind at 1. unfold dict_getitem. rewrite Hp. unfold ret at 1.
  unfold bind at 1. rewrite Hg.
  unfold bind at 1. unfold append_turn, bind, with_turn, printed, new_turn.
  cbn [run set_turns turns speaker text].
  unfold time_sleep, print, ret. cbn [run set_turns turns speaker text].
  destruct (print_transcript (run self)); cbv beta iota;
    destruct (meeting_agreed _); try reflexivity;
    match goal with
    | |- context [PrimFloat.ltb ?x ?y] => destruct (PrimFloat.ltb x y)
    end; reflexivity.
Qed.

End ProgramFacts.

Lemma wired_with_turn (self : TwoAgentChat) (t : ConversationTurn) :
  wired self -> wired (with_turn self t).
Proof. intros H i Hi. exact (H i Hi). Qed.

Lemma wired_init (env : Env) (a b : AgentConfig) (r : RunConfig) :
  wired (TwoAgentChat_init env a b r).
Proof.
  intros i [-> | ->]; unfold agent_at; cbn.
  - destruct (decide (name b = name a)) as [E|E].
    + exists (Provider_init env b). rewrite <- E, lookup_insert_eq.
      split; [reflexivity|].
      unfold Provider_init. repeat (destruct_all bool || case_match); reflexivity.
    + exists (Provider_init env a).
      rewrite lookup_insert_ne by exact E. rewrite lookup_insert_eq.
      split; [reflexivity|].
      unfold Provider_init. repeat case_match; reflexivity.
  - exists (Provider_init env b). rewrite lookup_insert_eq.
    split; [reflexivity|].
    unfold Provider_init. repeat case_match; reflexivity.
Qed.

Section LoopFacts.
Context {U : UnicodeDB}.

(** Induction over the rounds of the loop: a property of (state at the
    loop head, state at the loop end) that holds when the loop exits at
    once, when it breaks after a round, and is carried back over a round
    that continues, holds of every run of the loop; and with fuel for
    the rounds that are left the loop does return. *)
Lemma run_loop_elim
    (P : TwoAgentChat -> Z -> Z -> World -> TwoAgentChat -> World -> Prop) :
  (forall self idx taken w,
      (max_messages (run self) <= taken)%Z -> P self idx taken w self w) ->
  (forall self idx taken w p g w1,
      (idx = 0 \/ idx = 1)%Z -> wired self ->
      (taken < max_messages (run self))%Z ->
      providers self !! name (agent_at self idx) = Some p ->
      name (cfg p) = name (agent_at self idx) ->
      generate p (build_messages_for self (agent_at self idx)) w = (Return g, w1) ->
      strip g = g ->
      let t := new_turn (agent_at self idx) g in
      let self1 := with_turn self t in
      let w2 := printed self t w1 in
      (meeting_agreed (turns self1) = true -> P self idx taken w self1 w2)
      /\ (meeting_agreed (turns self1) = false ->
          forall self' w',
            P self1 (1 - idx)%Z (taken + 1)%Z w2 self' w' ->
            P self idx taken w self' w')) ->
  forall fuel self idx taken w,
    (idx = 0 \/ idx = 1)%Z -> wired self ->
    (Z.to_nat (max_messages (run self) - taken) <= fuel)%nat ->
    exists self' w',
      run_loop fuel self idx taken w = (Return self', w')
      /\ P self idx taken w self' w'.
Proof.
  intros Hexit Hround fuel.
  induction fuel as [|fuel IH]; intros self idx taken w Hidx Hwired Hfuel.
  - assert (Hge : (max_messages (run self) <= taken)%Z) by lia.
    exists self, w. split; [|apply Hexit; exact Hge].
    cbn. replace ((taken <? max_messages (run self))%Z) with false
      by (symmetry; apply Z.ltb_ge; exact Hge).
    reflexivity.
  - destruct (Z.lt_ge_cases taken (max_messages (run self))) as [Hlt|Hge].
    + destruct (Hwired idx Hidx) as (p & Hp & Hname).
      destruct (run_loop_round fuel self idx taken w p Hidx Hlt Hp)
        as (g & w1 & Hg & Hstrip & Heq).
      destruct (Hround self idx taken w p g w1 Hidx Hwired Hlt Hp Hname Hg Hstrip)
        as [Hbreak Hcont].
      rewrite Heq. cbv zeta.
      destruct (meeting_agreed _) eqn:Hm.
      * eexists _, _. split; [reflexivity|]. apply Hbreak. reflexivity.
      * destruct (IH (with_turn self (new_turn (agent_at self idx) g))
                    (1 - idx)%Z (taken + 1)%Z
                    (printed self (new_turn (agent_at self idx) g) w1))
          as (self' & w' & Hrun & HP).
        { lia. }
        { apply wired_with_turn. exact Hwired. }
        { cbn [with_turn set_turns run]. lia. }
        exists self', w'. split; [exact Hrun|].
        apply Hcont; [reflexivity|exact HP].
    + exists self, w. split; [|apply Hexit; exact Hge].
      cbn. replace ((taken <? max_messages (run self))%Z) with false
        by (symmetry; apply Z.ltb_ge; exact Hge).
      reflexivity.
Qed.

End LoopFacts.


Lemma placeholder_text : strip (u "...") = u "...".
Proof. vm_compute. reflexivity. Qed.

(** The recorded text is trimmed and not empty, whatever trimmed string
    [generate] returned: an empty one is replaced by the placeholder. *)
Lemma new_turn_text (who : AgentConfig) (g : pystr) :
  strip g = g ->
  strip (text (new_turn who g)) = text (new_turn who g)
  /\ text (new_turn who g) <> [].
Proof.
  intros Hg. unfold new_turn. cbn [text]. split; [apply strip_idem|].
  destruct g as [|c g']; cbn [str_or].
  - rewrite placeholder_text. vm_compute. discriminate.
  - rewrite Hg. discriminate.
Qed.

Lemma contexts_printed (self : TwoAgentChat) (t : ConversationTurn) (w : World) :
  contexts (printed self t w) = contexts w.
Proof. unfold printed. destruct (print_transcript (run self)); reflexivity. Qed.

Lemma index_after_succ (idx : Z) (k : nat) :
  (idx = 0 \/ idx = 1)%Z -> index_after (1 - idx) k = index_after idx (S k).
Proof.
  intros Hidx. unfold index_after. rewrite Nat.even_succ, <- Nat.negb_even.
  destruct (Nat.even k); cbn [negb]; [reflexivity|lia].
Qed.

Section LoopProperties.
Context {U : UnicodeDB}.

Lemma run_loop_post (fuel : nat) (self : TwoAgentChat) (idx taken : Z) (w : World) :
  (idx = 0 \/ idx = 1)%Z -> wired self ->
  (Z.to_nat (max_messages (run self) - taken) <= fuel)%nat ->
  exists self' w',
    run_loop fuel self idx taken w = (Return self', w')
    /\ loop_post self idx taken w self' w'.
Proof.
  apply (run_loop_elim loop_post); clear fuel self idx taken w.
  - intros self idx taken w Hge. split; [reflexivity|]. split; [reflexivity|].
    exists []. rewrite !app_nil_r. cbn [length imap].
    repeat split; try (constructor || lia).
    intros k t Hk. rewrite lookup_nil in Hk. discriminate.
  - intros self idx taken w p g w1 Hidx Hwired Hlt Hp Hname Hg Hstrip t self1 w2.
    destruct (generate_returns p (build_messages_for self (agent_at self idx)) w)
      as (g0 & w0 & Hg0 & _ & Hctx & _).
    rewrite Hg in Hg0. injection Hg0 as <- <-.
    assert (Hw2 : contexts w2 =
                  contexts w ++ [(name (agent_at self idx),
                                  build_messages_for self (agent_at self idx))]).
    { unfold w2. rewrite contexts_printed, Hctx, Hname. reflexivity. }
    assert (Hself : set_turns (turns self ++ take 0 (t :: [])) self = self).
    { cbn [take]. rewrite app_nil_r. destruct self; reflexivity. }
    split.
    + intros _. split; [reflexivity|]. split; [reflexivity|].
      exists [t]. split; [reflexivity|]. cbn [length].
      split; [lia|]. split; [discriminate|].
      split; [constructor; [apply new_turn_text; exact Hstrip|constructor]|].
      split.
      * intros [|k] t' Hk; [|rewrite lookup_cons, lookup_nil in Hk; discriminate].
        injection Hk as <-. reflexivity.
      * rewrite Hw2. cbn [imap]. unfold index_after. cbn [Nat.even take].
        rewrite app_nil_r. destruct self; reflexivity.
    + intros _ self' w' (Hag & Hrun & new & Hturns & Hlen & Hne & Hall & Hsp & Hctx').
      split; [exact Hag|]. split; [exact Hrun|].
      exists (t :: new).
      split. { rewrite Hturns. unfold self1, with_turn. cbn [turns set_turns].
               rewrite <- app_assoc. reflexivity. }
      split. { cbn [length]. unfold self1, with_turn in Hlen.
               cbn [run set_turns] in Hlen. lia. }
      split; [discriminate|].
      split. { constructor; [apply new_turn_text; exact Hstrip|exact Hall]. }
      split.
      * intros [|k] t' Hk.
        -- injection Hk as <-. reflexivity.
        -- rewrite lookup_cons in Hk. rewrite (Hsp k t' Hk).
           rewrite (index_after_succ idx k Hidx). reflexivity.
      * rewrite Hctx', Hw2, <- app_assoc. f_equal.
        rewrite imap_cons. cbn [app]. f_equal.
        -- unfold index_after. cbn [Nat.even take]. rewrite app_nil_r.
           destruct self; reflexivity.
        -- apply imap_ext. intros k x _. cbn [compose].
           rewrite (index_after_succ idx k Hidx).
           unfold self1, with_turn. cbn [turns set_turns take agents].
           rewrite <- app_assoc. reflexivity.
Qed.

End LoopProperties.


(** ** The vocabularies *)

(** The compiled patterns are the source patterns, parsed. *)
Lemma MEETING_RE_source :
  MEETING_RE = re_compile (join (u "|") MEETING_PATTERNS) IGNORECASE.
Proof. vm_compute. reflexivity. Qed.

Lemma MEETING_RE_parses :
  Parse.parse (join (u "|") MEETING_PATTERNS) = Some (pat_regex MEETING_RE).
Proof. vm_compute. reflexivity. Qed.

Lemma ACCEPTANCE_RE_source :
  ACCEPTANCE_RE
  = re_compile (u "\b(combinado|feito|perfeito|fechado|ok)\b") IGNORECASE.
Proof. vm_compute. reflexivity. Qed.

Lemma ACCEPTANCE_RE_parses :
  Parse.parse (u "\b(combinado|feito|perfeito|fechado|ok)\b")
  = Some (pat_regex ACCEPTANCE_RE).
Proof. vm_compute. reflexivity. Qed.

Lemma MEETING_RE_latin1 : latin1_text (regex_chars (pat_regex MEETING_RE)) = true.
Proof. vm_compute. reflexivity. Qed.

Lemma ACCEPTANCE_RE_latin1 : latin1_text (regex_chars (pat_regex ACCEPTANCE_RE)) = true.
Proof. vm_compute. reflexivity. Qed.

Section Vocabulary.
Context {U : UnicodeDB}.

(** Scenario A and Scenario B of the specification. *)
Example scenario_A :
  meeting_agreed [{| speaker := u "A"; text := u "Vamos marcar café quinta às 19:00?" |};
                  {| speaker := u "B"; text := u "Perfeito, combinado!" |}] = true.
Proof.
  etransitivity; [exact (meeting_agreed_last2 [] _ _)|]. cbn [text].
  replace (search MEETING_RE (u "Vamos marcar café quinta às 19:00?")) with true
    by (symmetry; (rewrite search_latin1 by (vm_compute; reflexivity)); vm_compute; reflexivity).
  replace (search ACCEPTANCE_RE (u "Perfeito, combinado!")) with true
    by (symmetry; (rewrite search_latin1 by (vm_compute; reflexivity)); vm_compute; reflexivity).
  reflexivity.
Qed.

(** Scenario A, shouted. *)
Example scenario_A_upper_case :
  meeting_agreed [{| speaker := u "A"; text := u "VAMOS MARCAR CAFÉ QUINTA ÀS 19:00?" |};
                  {| speaker := u "B"; text := u "PERFEITO, COMBINADO!" |}] = true.
Proof.
  etransitivity; [exact (meeting_agreed_last2 [] _ _)|]. cbn [text].
  replace (search MEETING_RE (u "VAMOS MARCAR CAFÉ QUINTA ÀS 19:00?")) with true
    by (symmetry; (rewrite search_latin1 by (vm_compute; reflexivity)); vm_compute; reflexivity).
  replace (search ACCEPTANCE_RE (u "PERFEITO, COMBINADO!")) with true
    by (symmetry; (rewrite search_latin1 by (vm_compute; reflexivity)); vm_compute; reflexivity).
  reflexivity.
Qed.

Example scenario_B :
  meeting_agreed [{| speaker := u "A"; text := u "Como estás?" |};
                  {| speaker := u "B"; text := u "Bem, e tu?" |}] = false.
Proof.
  etransitivity; [exact (meeting_agreed_last2 [] _ _)|]. cbn [text].
  replace (search MEETING_RE (u "Como estás?")) with false
    by (symmetry; (rewrite search_latin1 by (vm_compute; reflexivity)); vm_compute; reflexivity).
  reflexivity.
Qed.

Lemma generic_reply_trimmed : strip GENERIC_REPLY = GENERIC_REPLY.
Proof. vm_compute. reflexivity. Qed.

Lemma generic_reply_no_proposal : search MEETING_RE GENERIC_REPLY = false.
Proof. (rewrite search_latin1 by (vm_compute; reflexivity)); vm_compute; reflexivity. Qed.

Lemma generic_reply_no_acceptance : search ACCEPTANCE_RE GENERIC_REPLY = false.
Proof. (rewrite search_latin1 by (vm_compute; reflexivity)); vm_compute; reflexivity. Qed.

Lemma empty_no_proposal : search MEETING_RE [] = false.
Proof. (rewrite search_latin1 by (vm_compute; reflexivity)); vm_compute; reflexivity. Qed.

Lemma default_kickoff_no_proposal : search MEETING_RE DEFAULT_KICKOFF = false.
Proof. (rewrite search_latin1 by (vm_compute; reflexivity)); vm_compute; reflexivity. Qed.

(** The fallback proposes a concrete time exactly when the last user
    message has proposal vocabulary. *)
Lemma stub_unavailable (messages : list Message) :
  _stub messages NOTE_UNAVAILABLE =
    if search MEETING_RE (last_user_content messages)
    then SUGGEST_TIME ++ u " " ++ NOTE_UNAVAILABLE
    else GENERIC_REPLY.
Proof.
  unfold _stub. destruct (search MEETING_RE _).
  - vm_compute. reflexivity.
  - vm_compute. reflexivity.
Qed.

End Vocabulary.


(** ** Case *)

(** A property of characters checked on the whole Latin-1 block holds of
    every character below 256. *)
Lemma latin1_block_forall (P : N -> bool) :
  forallb P latin1_block = true -> forall c, c < 256 -> P c = true.
Proof.
  intros H c Hc. rewrite forallb_forall in H. apply H.
  unfold latin1_block. apply in_map_iff. exists (N.to_nat c).
  split; [apply N2Nat.id|]. apply in_seq. lia.
Qed.

Lemma latin1_tolower_high (c : N) : 256 <= c -> Latin1.tolower c = c.
Proof.
  intros Hc. unfold Latin1.tolower, Latin1.upper_letter, Latin1.in_range.
  replace (c <=? 0x5A) with false by (symmetry; apply N.leb_gt; lia).
  replace (c <=? 0xD6) with false by (symmetry; apply N.leb_gt; lia).
  replace (c <=? 0xDE) with false by (symmetry; apply N.leb_gt; lia).
  rewrite !andb_false_r. reflexivity.
Qed.

(** Lowering a Latin-1 character keeps what the engine reads of it. *)
Lemma latin1_lower_keeps (ch : N) :
  ch < 256 ->
  Latin1.tolower (Latin1.tolower ch) = Latin1.tolower ch
  /\ Latin1.isalnum (Latin1.tolower ch) = Latin1.isalnum ch
  /\ Latin1.isdecimal (Latin1.tolower ch) = Latin1.isdecimal ch
  /\ isspace (Latin1.tolower ch) = isspace ch
  /\ (Latin1.tolower ch =? 0x5F) = (ch =? 0x5F).
Proof.
  intros Hch.
  pose proof (latin1_block_forall
    (fun ch => (Latin1.tolower (Latin1.tolower ch) =? Latin1.tolower ch)
               && Bool.eqb (Latin1.isalnum (Latin1.tolower ch)) (Latin1.isalnum ch)
               && Bool.eqb (Latin1.isdecimal (Latin1.tolower ch)) (Latin1.isdecimal ch)
               && Bool.eqb (isspace (Latin1.tolower ch)) (isspace ch)
               && Bool.eqb (Latin1.tolower ch =? 0x5F) (ch =? 0x5F))
    ltac:(vm_compute; reflexivity) ch Hch) as H.
  cbv beta in H.
  repeat (apply andb_prop in H; destruct H as [H ?]).
  apply N.eqb_eq in H.
  repeat match goal with E : Bool.eqb _ _ = true |- _ => apply eqb_prop in E end.
  auto.
Qed.

(** An uncased Latin-1 character is its own lower case, has no extra
    cases, and is the lower case of no other Latin-1 character. *)
Lemma latin1_uncased (c : N) :
  c < 256 -> Latin1.iscased c = false ->
  Latin1.tolower c = c /\ Latin1.casefix c = []
  /\ forall ch, (Latin1.tolower ch =? c) = (ch =? c).
Proof.
  intros Hc Hun.
  pose proof (latin1_block_forall
    (fun c => Latin1.iscased c
              || ((Latin1.tolower c =? c)
                  && match Latin1.casefix c with [] => true | _ => false end
                  && forallb (fun ch => Bool.eqb (Latin1.tolower ch =? c) (ch =? c))
                       latin1_block))
    ltac:(vm_compute; reflexivity) c Hc) as H.
  cbv beta in H. rewrite Hun in H. cbn [orb] in H.
  apply andb_prop in H. destruct H as [H H3].
  apply andb_prop in H. destruct H as [H1 H2].
  apply N.eqb_eq in H1. split; [exact H1|].
  split; [destruct (Latin1.casefix c); [reflexivity|discriminate]|].
  intros ch. destruct (N.lt_ge_cases ch 256) as [Hlt|Hge].
  - apply eqb_prop. exact (latin1_block_forall _ H3 ch Hlt).
  - rewrite (latin1_tolower_high ch Hge). reflexivity.
Qed.

Section Case.
Context {U : UnicodeDB}.

Lemma tolower_lowered (ch : N) : tolower (Latin1.tolower ch) = tolower ch.
Proof.
  destruct (N.lt_ge_cases ch 256) as [Hlt|Hge].
  - rewrite (tolower_latin1 ch Hlt).
    rewrite tolower_latin1 by (apply latin1_tolower_bound; exact Hlt).
    exact (proj1 (latin1_lower_keeps ch Hlt)).
  - rewrite (latin1_tolower_high ch Hge). reflexivity.
Qed.

Lemma isword_lowered (ch : N) : isword (Latin1.tolower ch) = isword ch.
Proof.
  destruct (N.lt_ge_cases ch 256) as [Hlt|Hge].
  - rewrite (isword_latin1 ch Hlt).
    rewrite isword_latin1 by (apply latin1_tolower_bound; exact Hlt).
    destruct (latin1_lower_keeps ch Hlt) as (_ & Ha & _ & _ & Hu).
    unfold isword. cbn [ucd latin1_db Latin1.props cp_alnum].
    rewrite Ha, Hu. reflexivity.
  - rewrite (latin1_tolower_high ch Hge). reflexivity.
Qed.

Lemma isdecimal_lowered (ch : N) : isdecimal (Latin1.tolower ch) = isdecimal ch.
Proof.
  destruct (N.lt_ge_cases ch 256) as [Hlt|Hge].
  - rewrite (isdecimal_latin1 ch Hlt).
    rewrite isdecimal_latin1 by (apply latin1_tolower_bound; exact Hlt).
    exact (proj1 (proj2 (proj2 (latin1_lower_keeps ch Hlt)))).
  - rewrite (latin1_tolower_high ch Hge). reflexivity.
Qed.

Lemma isspace_lowered (ch : N) : isspace (Latin1.tolower ch) = isspace ch.
Proof.
  destruct (N.lt_ge_cases ch 256) as [Hlt|Hge].
  - exact (proj1 (proj2 (proj2 (proj2 (latin1_lower_keeps ch Hlt))))).
  - rewrite (latin1_tolower_high ch Hge). reflexivity.
Qed.

Lemma literal_matches_lowered (c ch : N) :
  c < 256 ->
  literal_matches true c (Latin1.tolower ch) = literal_matches true c ch.
Proof.
  intros Hc. unfold literal_matches. cbn [andb].
  destruct (iscased c) eqn:Ecased.
  - rewrite tolower_lowered. reflexivity.
  - rewrite (iscased_latin1 c Hc) in Ecased.
    exact (proj2 (proj2 (latin1_uncased c Hc Ecased)) ch).
Qed.

Lemma uncased_charmap (items : list N) :
  latin1_text items = true -> existsb iscased items = false ->
  flat_map (fun av => tolower av :: casefix (tolower av)) items = items
  /\ forall ch, mem (Latin1.tolower ch) items = mem ch items.
Proof.
  induction items as [|av items IH]; intros Hitems Ecased; [split; reflexivity|].
  cbn [latin1_text forallb] in Hitems. apply andb_prop in Hitems.
  destruct Hitems as [Hav Hitems]. apply N.ltb_lt in Hav.
  cbn [existsb] in Ecased. apply orb_false_elim in Ecased.
  destruct Ecased as [Eav Erest].
  rewrite (iscased_latin1 av Hav) in Eav.
  destruct (latin1_uncased av Hav Eav) as (Hlow & Hfix & Hother).
  destruct (IH Hitems Erest) as [Hmap Hmem].
  assert (Hlo : tolower av = av).
  { rewrite (tolower_latin1 av Hav). exact Hlow. }
  assert (Hcf : casefix av = []).
  { rewrite (casefix_latin1 av Hav). exact Hfix. }
  split.
  - cbn [flat_map]. rewrite Hlo, Hcf, Hmap. reflexivity.
  - intros ch. unfold mem in *. cbn [existsb]. rewrite Hmem, (Hother ch).
    reflexivity.
Qed.

Lemma set_matches_lowered (items : list N) (ch : N) :
  latin1_text items = true ->
  set_matches true items (Latin1.tolower ch) = set_matches true items ch.
Proof.
  intros Hitems. unfold set_matches.
  destruct (existsb iscased items) eqn:Ecased.
  - rewrite tolower_lowered. reflexivity.
  - destruct (uncased_charmap items Hitems Ecased) as [Hmap Hmem].
    cbv zeta. rewrite Hmap. apply Hmem.
Qed.

Lemma lookup_lowered (s : pystr) (i : nat) :
  latin1_lower s !! i = Latin1.tolower <$> s !! i.
Proof. unfold latin1_lower. apply list_lookup_fmap. Qed.

Lemma from_option_isword_lowered (s : pystr) (i : nat) :
  from_option isword false (latin1_lower s !! i) = from_option isword false (s !! i).
Proof.
  rewrite lookup_lowered. destruct (s !! i); cbn; [apply isword_lowered|reflexivity].
Qed.

Lemma at_boundary_lowered (s : pystr) (i : nat) :
  at_boundary (latin1_lower s) i = at_boundary s i.
Proof.
  unfold at_boundary. rewrite from_option_isword_lowered.
  destruct i as [|j]; [reflexivity|].
  rewrite from_option_isword_lowered. reflexivity.
Qed.

Lemma match_at_lowered (s : pystr) (r : regex) :
  latin1_text (regex_chars r) = true ->
  forall i k1 k2, (forall j, k1 j = k2 j) ->
    match_at true r (latin1_lower s) i k1 = match_at true r s i k2.
Proof.
  induction r as [|c|items| | | |r1 IH1 r2 IH2|r1 IH1 r2 IH2|lo hi r1 IH1];
    intros Hr i k1 k2 Hk; cbn [match_at].
  - apply Hk.
  - rewrite lookup_lowered. destruct (s !! i) as [ch|]; cbn [fmap option_fmap option_map]; [|reflexivity].
    rewrite Hk. f_equal. apply literal_matches_lowered.
    cbn in Hr. apply andb_prop in Hr. apply N.ltb_lt. tauto.
  - rewrite lookup_lowered. destruct (s !! i) as [ch|]; cbn [fmap option_fmap option_map]; [|reflexivity].
    rewrite Hk. f_equal. apply set_matches_lowered. exact Hr.
  - rewrite lookup_lowered. destruct (s !! i) as [ch|]; cbn [fmap option_fmap option_map]; [|reflexivity].
    rewrite Hk. f_equal. apply isdecimal_lowered.
  - rewrite lookup_lowered. destruct (s !! i) as [ch|]; cbn [fmap option_fmap option_map]; [|reflexivity].
    rewrite Hk. f_equal. apply isspace_lowered.
  - rewrite Hk, at_boundary_lowered. reflexivity.
  - cbn [regex_chars] in Hr. unfold latin1_text in Hr. rewrite forallb_app in Hr.
    apply andb_prop in Hr. destruct Hr as [H1 H2].
    apply IH1; [exact H1|]. intros j. apply IH2; [exact H2|exact Hk].
  - cbn [regex_chars] in Hr. unfold latin1_text in Hr. rewrite forallb_app in Hr.
    apply andb_prop in Hr. destruct Hr as [H1 H2].
    rewrite (IH1 H1 i k1 k2 Hk), (IH2 H2 i k1 k2 Hk). reflexivity.
  - unfold latin1_lower at 2. rewrite length_map.
    apply repeat_match_ext; [|exact Hk].
    intros i' k1' k2' Hk'. apply IH1; [exact Hr|exact Hk'].
Qed.

(** A pattern compiled with IGNORECASE finds the same in a text and in its
    lower-case form. *)
Lemma search_lowered (p : Pattern) (s : pystr) :
  pat_ignorecase p = IGNORECASE ->
  latin1_text (regex_chars (pat_regex p)) = true ->
  search p (latin1_lower s) = search p s.
Proof.
  intros Hic Hp. unfold search. rewrite Hic.
  unfold latin1_lower at 2. rewrite length_map.
  induction (seq 0 (S (length s))) as [|i l IH]; cbn [existsb]; [reflexivity|].
  rewrite IH. f_equal. apply match_at_lowered; auto.
Qed.

Lemma getitem_map {A B} (f : A -> B) (l : list A) (i : Z) :
  getitem (map f l) i = f <$> getitem l i.
Proof.
  unfold getitem. rewrite length_map.
  destruct (_ && _)%bool; [apply list_lookup_fmap|reflexivity].
Qed.

Lemma meeting_agreed_lowered (ts : list ConversationTurn) :
  meeting_agreed (map lower_turn ts) = meeting_agreed ts.
Proof.
  unfold meeting_agreed. rewrite length_map, !getitem_map.
  destruct (_ <? _)%Z; [reflexivity|].
  destruct (getitem ts (-2)) as [previous|]; [|reflexivity].
  destruct (getitem ts (-1)) as [latest|]; [|reflexivity].
  cbn [fmap option_fmap option_map lower_turn text].
  rewrite !(search_lowered MEETING_RE) by reflexivity.
  rewrite (search_lowered ACCEPTANCE_RE) by reflexivity.
  reflexivity.
Qed.

End Case.


(** ** Runs on the local fallback *)

Lemma list_last2 {A} (l : list A) :
  (2 <= length l)%nat -> exists init x y, l = init ++ [x; y].
Proof.
  intros Hlen.
  destruct l as [|y l'] using rev_ind; [cbn in Hlen; lia|].
  destruct l' as [|x l''] using rev_ind.
  - cbn in Hlen. lia.
  - exists l'', x, y. rewrite <- app_assoc. reflexivity.
Qed.

Lemma last_user_content_cases (messages : list Message) :
  last_user_content messages = []
  \/ exists m, In m messages /\ role m = role_user
               /\ last_user_content messages = content m.
Proof.
  unfold last_user_content.
  destruct (filter _ (rev messages)) as [|m rest] eqn:E; [left; reflexivity|].
  right. exists m.
  assert (Hin : m ∈ filter (fun m => role m = role_user) (rev messages))
    by (rewrite E; left).
  apply list_elem_of_filter in Hin. destruct Hin as [Hrole Hin].
  split; [|split; [exact Hrole|reflexivity]].
  apply list_elem_of_In in Hin. apply in_rev. exact Hin.
Qed.

Lemma last_user_kickoff (self : TwoAgentChat) (who : AgentConfig) :
  turns self = [] ->
  last_user_content (build_messages_for self who) = kickoff who.
Proof.
  intros H. unfold build_messages_for. rewrite H. reflexivity.
Qed.

Lemma last_user_replayed (self : TwoAgentChat) (who : AgentConfig) :
  turns self <> [] ->
  last_user_content (build_messages_for self who) = []
  \/ exists t, In t (turns self)
               /\ last_user_content (build_messages_for self who) = text t.
Proof.
  intros Hne.
  destruct (last_user_content_cases (build_messages_for self who))
    as [H|(m & Hin & Hrole & Hm)]; [left; exact H|].
  right. unfold build_messages_for in Hin.
  destruct (turns self) as [|t0 ts] eqn:E; [congruence|].
  cbn [app] in Hin. destruct Hin as [<-|Hin].
  - cbn [role] in Hrole. discriminate.
  - apply in_map_iff in Hin. destruct Hin as (t & <- & Hin).
    exists t. split; [exact Hin|exact Hm].
Qed.

Section Fallback.
Context {U : UnicodeDB}.

Lemma generate_disabled (p : Provider) (messages : list Message) (w : World) :
  _enabled p = false ->
  fst (generate p messages w) = Return (_stub messages NOTE_UNAVAILABLE).
Proof.
  intros H. unfold generate, bind, record_context. rewrite H. reflexivity.
Qed.

Lemma new_turn_generic (who : AgentConfig) :
  text (new_turn who GENERIC_REPLY) = GENERIC_REPLY.
Proof. unfold new_turn. cbn [text]. vm_compute. reflexivity. Qed.

(** A history of generic fallback replies never looks like an agreed
    meeting. *)
Lemma meeting_agreed_generic (ts : list ConversationTurn) :
  Forall (fun t => text t = GENERIC_REPLY) ts -> meeting_agreed ts = false.
Proof.
  intros Hall.
  destruct (Nat.lt_ge_cases (length ts) 2) as [Hshort|Hlong].
  - apply meeting_agreed_short. exact Hshort.
  - destruct (list_last2 ts Hlong) as (init & x & y & ->).
    rewrite meeting_agreed_last2.
    apply Forall_app in Hall. destruct Hall as [_ Hxy].
    inversion Hxy as [|? ? Hx _]; subst.
    rewrite Hx, generic_reply_no_proposal. reflexivity.
Qed.

Lemma run_loop_fallback (fuel : nat) (self : TwoAgentChat) (idx taken : Z) (w : World) :
  (idx = 0 \/ idx = 1)%Z -> wired self ->
  (Z.to_nat (max_messages (run self) - taken) <= fuel)%nat ->
  exists self' w',
    run_loop fuel self idx taken w = (Return self', w')
    /\ fallback_post self idx taken w self' w'.
Proof.
  apply (run_loop_elim fallback_post); clear fuel self idx taken w.
  - intros self idx taken w Hge _ _ _. exists [].
    rewrite app_nil_r. split; [reflexivity|]. split; [cbn; lia|constructor].
  - intros self idx taken w p g w1 Hidx Hwired Hlt Hp Hname Hg Hstrip t self1 w2.
    assert (Hround :
      (forall key q, providers self !! key = Some q -> _enabled q = false) ->
      Forall (fun t => text t = GENERIC_REPLY) (turns self) ->
      (turns self = [] -> search MEETING_RE (kickoff (agent_at self idx)) = false) ->
      Forall (fun t => text t = GENERIC_REPLY) (turns self1)).
    { intros Hoff Hall Hkick.
      assert (Hg' : g = GENERIC_REPLY).
      { pose proof (generate_disabled p
                      (build_messages_for self (agent_at self idx)) w
                      (Hoff _ _ Hp)) as Hd.
        rewrite Hg in Hd. cbn [fst] in Hd. injection Hd as ->.
        rewrite stub_unavailable.
        assert (Hno : search MEETING_RE
                        (last_user_content
                           (build_messages_for self (agent_at self idx))) = false).
        { destruct (turns self) as [|t0 ts] eqn:E.
          - rewrite (last_user_kickoff self _ E). apply Hkick. reflexivity.
          - destruct (last_user_replayed self (agent_at self idx))
              as [-> | (t1 & Hin & ->)].
            + rewrite E. discriminate.
            + apply empty_no_proposal.
            + rewrite Forall_forall in Hall. rewrite E in Hin.
              apply list_elem_of_In in Hin.
              rewrite (Hall t1 Hin). apply generic_reply_no_proposal. }
        rewrite Hno. reflexivity. }
      unfold self1, with_turn. cbn [turns set_turns].
      apply Forall_app. split; [exact Hall|].
      constructor; [|constructor].
      unfold t. rewrite Hg'. apply new_turn_generic. }
    split.
    + intros Hm Hoff Hall Hkick.
      rewrite (meeting_agreed_generic _ (Hround Hoff Hall Hkick)) in Hm.
      discriminate.
    + intros _ self' w' Hpost Hoff Hall Hkick.
      pose proof (Hround Hoff Hall Hkick) as Hall1.
      destruct Hpost as (new & Hturns & Hlen & Hnew).
      * exact Hoff.
      * exact Hall1.
      * unfold self1, with_turn. cbn [turns set_turns].
        intros Habs. apply app_eq_nil in Habs. destruct Habs as [_ Habs].
        discriminate.
      * exists (t :: new).
        split. { rewrite Hturns. unfold self1, with_turn. cbn [turns set_turns].
                 rewrite <- app_assoc. reflexivity. }
        split. { cbn [length]. rewrite Hlen. unfold self1, with_turn.
                 cbn [run set_turns]. lia. }
        constructor; [|exact Hnew].
        unfold self1, with_turn in Hall1. cbn [turns set_turns] in Hall1.
        apply Forall_app in Hall1. destruct Hall1 as [_ Ht].
        inversion Ht; subst. assumption.
Qed.

End Fallback.


(** ** Transcript export *)

Lemma utf8_encode_app (x y : pystr) :
  utf8_encode (x ++ y) =
    match utf8_encode x, utf8_encode y with
    | Some a, Some b => Some (a ++ b)
    | _, _ => None
    end.
Proof.
  induction x as [|c x IH]; cbn [app utf8_encode].
  - destruct (utf8_encode y); reflexivity.
  - rewrite IH. destruct (utf8_encode_char c); [|reflexivity].
    destruct (utf8_encode x); [|reflexivity].
    destruct (utf8_encode y); [|reflexivity].
    rewrite app_assoc. reflexivity.
Qed.

Lemma utf8_encode_ascii (s : pystr) : ascii_text s = true -> utf8_encode s = Some s.
Proof.
  induction s as [|c s IH]; cbn [ascii_text forallb utf8_encode]; [reflexivity|].
  intros H. apply andb_prop in H. destruct H as [Hc Hs].
  rewrite (IH Hs). unfold utf8_encode_char.
  change (c <? 0x80) with (c <? 128). rewrite Hc. reflexivity.
Qed.

Lemma digit_ascii (n : N) : (48 + n mod 10 <? 128) = true.
Proof.
  apply N.ltb_lt. pose proof (N.mod_upper_bound n 10). lia.
Qed.

Lemma strftime_ascii (d : datetime) : ascii_text (strftime_Ymd_HM d) = true.
Proof.
  unfold strftime_Ymd_HM, pad2, pad4, ascii_text.
  rewrite !forallb_app. cbn [forallb]. rewrite !digit_ascii. reflexivity.
Qed.

Lemma stamp_line_encoded (d : datetime) :
  utf8_encode (u "> Transcript gerado em " ++ strftime_Ymd_HM d
               ++ nl ++ nl ++ u "---" ++ nl ++ nl)
  = Some (u "> Transcript gerado em " ++ strftime_Ymd_HM d
          ++ nl ++ nl ++ u "---" ++ nl ++ nl).
Proof.
  apply utf8_encode_ascii. unfold ascii_text.
  rewrite !forallb_app. fold (ascii_text (strftime_Ymd_HM d)).
  rewrite strftime_ascii. vm_compute. reflexivity.
Qed.

Lemma write_at (h s : pystr) (m : gmap pystr (list N)) (old : list N) (w : World) :
  write h s (set_files (<[h := old]> m) w) =
    match utf8_encode s with
    | Some bs => (Return tt, set_files (<[h := old ++ bs]> m) w)
    | None => (Raise (u "UnicodeEncodeError"), set_files (<[h := old]> m) w)
    end.
Proof.
  unfold write. destruct (utf8_encode s) as [bs|]; [|reflexivity].
  cbn [files set_files]. rewrite alter_insert_eq. reflexivity.
Qed.

Lemma for_each_write {A} (h : pystr) (f : A -> pystr) (l : list A)
    (m : gmap pystr (list N)) (old : list N) (w : World) :
  for_each l (fun x => write h (f x)) (set_files (<[h := old]> m) w) =
    (if snd (written (map f l)) then Return tt else Raise (u "UnicodeEncodeError"),
     set_files (<[h := old ++ fst (written (map f l))]> m) w).
Proof.
  revert old. induction l as [|x l IH]; intros old; cbn [for_each map written].
  - unfold ret. cbn [fst snd]. rewrite app_nil_r. reflexivity.
  - unfold bind. rewrite write_at.
    destruct (utf8_encode (f x)) as [bs|].
    + rewrite IH. destruct (written (map f l)) as [more ok]. cbn [fst snd].
      rewrite app_assoc. reflexivity.
    + cbn [fst snd]. rewrite app_nil_r. reflexivity.
Qed.

(** The document: everything but the time stamp is fixed by the turns, the
    title and the subtitle; so are the outcome of the export, and where a
    failed export stops. *)
Lemma export_markdown_spec (self : TwoAgentChat) (path title : pystr)
    (subtitle : option pystr) :
  exists (outcome : Result TwoAgentChat) (pre post : list N) (stamped : bool),
    (outcome = Return self \/ outcome = Raise (u "UnicodeEncodeError"))
    /\ (outcome = Return self -> stamped = true)
    /\ forall w,
         export_markdown self path title subtitle w =
           (outcome,
            set_files
              (<[path := if stamped
                         then pre ++ strftime_Ymd_HM (now w) ++ post
                         else pre]> (files w)) w).
Proof.
  pose (head := u "# " ++ title ++ nl ++ nl).
  pose (sub := u "_" ++ opt_or subtitle [] ++ u "_" ++ nl ++ nl).
  destruct (utf8_encode head) as [b1|] eqn:E1.
  2:{ exists (@Raise TwoAgentChat (u "UnicodeEncodeError")), (@nil N), (@nil N), false.
      split; [right; reflexivity|]. split; [discriminate|].
      intros w. unfold export_markdown, bind, datetime_now, open_w.
      rewrite write_at. fold head. rewrite E1. reflexivity. }
  assert (Hsub : exists (b2 : list N) (ok2 : bool),
            forall (m : gmap pystr (list N)) (old : list N) (w : World),
            (if truthy subtitle then write path sub else ret tt)
              (set_files (<[path := old]> m) w)
            = (if ok2 then Return tt else Raise (u "UnicodeEncodeError"),
               set_files (<[path := old ++ b2]> m) w)).
  { destruct (truthy subtitle).
    - destruct (utf8_encode sub) as [b2|] eqn:E2.
      + exists b2, true. intros m old w. rewrite write_at, E2. reflexivity.
      + exists [], false. intros m old w. rewrite write_at, E2, app_nil_r. reflexivity.
    - exists [], true. intros m old w. rewrite app_nil_r. reflexivity. }
  destruct Hsub as (b2 & ok2 & Hsub).
  destruct ok2.
  2:{ exists (@Raise TwoAgentChat (u "UnicodeEncodeError")), (b1 ++ b2), (@nil N), false.
      split; [right; reflexivity|]. split; [discriminate|].
      intros w. unfold export_markdown, bind, datetime_now, open_w.
      rewrite write_at. fold head. rewrite E1. fold sub. rewrite Hsub.
      reflexivity. }
  destruct (written (map turn_block (turns self))) as [body ok] eqn:Ew.
  exists (if ok then Return self else @Raise TwoAgentChat (u "UnicodeEncodeError")),
         (b1 ++ b2 ++ u "> Transcript gerado em "),
         (nl ++ nl ++ u "---" ++ nl ++ nl ++ body), true.
  split; [destruct ok; [left|right]; reflexivity|].
  split; [reflexivity|].
  intros w. unfold export_markdown, bind, datetime_now, open_w.
  rewrite write_at. fold head. rewrite E1. fold sub. rewrite Hsub.
  rewrite write_at. cbn [now set_files]. rewrite stamp_line_encoded.
  pose proof (for_each_write path turn_block (turns self)) as Hfe.
  unfold turn_block in Hfe at 1. rewrite Hfe. rewrite Ew. cbn [fst snd].
  unfold ret. destruct ok; (f_equal; f_equal; f_equal;
    rewrite <- !app_assoc; reflexivity).
Qed.


(** ** Whole runs *)

Section Runs.
Context {U : UnicodeDB}.

Lemma chat_run_post (env : Env) (a b : AgentConfig) (r : RunConfig) (w : World) :
  exists self' w',
    chat_run env a b r w = (Return self', w')
    /\ loop_post (TwoAgentChat_init env a b r) 0 0 w self' w'.
Proof.
  unfold chat_run, run_until_meeting_or_max.
  apply run_loop_post; [left; reflexivity|apply wired_init|].
  cbn [run TwoAgentChat_init]. lia.
Qed.

Lemma agent_at_init (env : Env) (a b : AgentConfig) (r : RunConfig) (k : nat) :
  agent_at (TwoAgentChat_init env a b r) (index_after 0 k)
  = if Nat.even k then a else b.
Proof. unfold agent_at, index_after. destruct (Nat.even k); reflexivity. Qed.

End Runs.

(** C1. [meeting_agreed] is false on fewer than two turns; on a longer
    history it is true exactly when the second-to-last text matches the
    proposal vocabulary and the last text matches the acceptance or the
    proposal vocabulary.  Matching ignores case: each vocabulary finds the
    same in a text and in its lower-case form, and so does the detector. *)
Theorem meeting_agreed_iff {U : UnicodeDB} :
  meeting_agreed [] = false
  /\ (forall t, meeting_agreed [t] = false)
  /\ (forall init previous latest,
        meeting_agreed (init ++ [previous; latest]) = true
        <-> search MEETING_RE (text previous) = true
            /\ (search ACCEPTANCE_RE (text latest) = true
                \/ search MEETING_RE (text latest) = true))
  /\ (forall s, search MEETING_RE (latin1_lower s) = search MEETING_RE s)
  /\ (forall s, search ACCEPTANCE_RE (latin1_lower s) = search ACCEPTANCE_RE s)
  /\ (forall ts, meeting_agreed (map lower_turn ts) = meeting_agreed ts).
Proof.
  split; [apply meeting_agreed_short; cbn; lia|].
  split; [intros t; apply meeting_agreed_short; cbn; lia|].
  split.
  { intros init previous latest. rewrite meeting_agreed_last2.
    rewrite andb_true_iff, orb_true_iff. reflexivity. }
  split; [intros s; apply search_lowered; reflexivity|].
  split; [intros s; apply search_lowered; reflexivity|].
  exact meeting_agreed_lowered.
Qed.


(** A blank answer of the endpoint is recorded as the placeholder. *)
Example blank_reply_recorded :
  recorded (chat_run (U := latin1_db) Demo.online
              (Demo.agent (u "Rui") None) (Demo.agent (u "Ana") None)
              (Demo.settings 1) Demo.world)
  = Some [{| speaker := u "Rui"; text := u "..." |}].
Proof. vm_compute. reflexivity. Qed.














Section FallbackRuns.
Context {U : UnicodeDB}.

Lemma init_providers_disabled (env : Env) (a b : AgentConfig) (r : RunConfig) :
  disabled env a -> disabled env b ->
  forall key p,
    providers (TwoAgentChat_init env a b r) !! key = Some p -> _enabled p = false.
Proof.
  intros Ha Hb key p. cbn [providers TwoAgentChat_init].
  rewrite !lookup_insert_Some, lookup_empty.
  intros [[_ <-]|[_ [[_ <-]|[_ Habs]]]]; [exact Hb|exact Ha|discriminate].
Qed.

(** A run on the local fallback alone, opened by a kickoff without
    proposal vocabulary: exactly the budget, all generic replies. *)
Lemma chat_run_fallback (env : Env) (a b : AgentConfig) (r : RunConfig) (w : World) :
  disabled env a -> disabled env b ->
  search MEETING_RE (kickoff a) = false ->
  exists self' w',
    chat_run env a b r w = (Return self', w')
    /\ length (turns self') = Z.to_nat (max_messages r)
    /\ Forall (fun t => text t = GENERIC_REPLY) (turns self')
    /\ (forall k t, turns self' !! k = Some t ->
          speaker t = name (if Nat.even k then a else b)).
Proof.
  intros Ha Hb Hkick.
  destruct (chat_run_post env a b r w)
    as (self' & w' & Hrun & _ & _ & new & Hturns & _ & _ & _ & Hsp & _).
  assert (Hfb : exists self2 w2,
            chat_run env a b r w = (Return self2, w2)
            /\ fallback_post (TwoAgentChat_init env a b r) 0 0 w self2 w2).
  { unfold chat_run, run_until_meeting_or_max.
    apply run_loop_fallback; [left; reflexivity|apply wired_init|].
    cbn [run TwoAgentChat_init]. lia. }
  destruct Hfb as (self2 & w2 & Hrun2 & Hpost).
  rewrite Hrun in Hrun2. injection Hrun2 as <- <-.
  destruct Hpost as (new2 & Hturns2 & Hlen & Hall).
  { apply init_providers_disabled; assumption. }
  { constructor. }
  { intros _. exact Hkick. }
  cbn [turns TwoAgentChat_init app run] in *.
  exists self', w'. split; [exact Hrun|].
  split; [rewrite Hturns2, Hlen; f_equal; lia|].
  split; [rewrite Hturns2; exact Hall|].
  intros k t Hk. rewrite Hturns in Hk.
  rewrite (Hsp k t Hk), agent_at_init. reflexivity.
Qed.

End FallbackRuns.








(** ** Provider failures *)

Lemma strip_wrapped (c : N) (x y : pystr) (d : N) :
  isspace c = false -> isspace d = false ->
  strip ((c :: x) ++ y ++ [d]) = (c :: x) ++ y ++ [d].
Proof.
  intros Hc Hd. cbn [app]. rewrite app_assoc. apply strip_fixed; assumption.
Qed.

Lemma note_error_shape (exc : pystr) :
  u " " ++ note_error exc = (u " " ++ u "(provider error: " ++ exc) ++ [41].
Proof. unfold note_error. rewrite <- !app_assoc. reflexivity. Qed.

Section Failures.
Context {U : UnicodeDB}.

(** The fallback reply ends with the note it was given. *)
Lemma stub_with_note (messages : list Message) (exc : pystr) :
  exists suggestion,
    (suggestion = SUGGEST_TIME \/ suggestion = SUGGEST_GENERIC)
    /\ _stub messages (note_error exc) = suggestion ++ u " " ++ note_error exc.
Proof.
  unfold _stub. destruct (search MEETING_RE _).
  - exists SUGGEST_TIME. split; [left; reflexivity|].
    rewrite note_error_shape. unfold SUGGEST_TIME.
    apply strip_wrapped; reflexivity.
  - exists SUGGEST_GENERIC. split; [right; reflexivity|].
    rewrite note_error_shape. unfold SUGGEST_GENERIC.
    apply strip_wrapped; reflexivity.
Qed.

End Failures.

(** C8. [generate] never raises: it returns a string for every provider,
    context and world; and when the remote call of an enabled provider
    raises, the string is a fallback suggestion followed by the note
    [(provider error: <exception>)]. *)
Theorem generate_absorbs_failure {U : UnicodeDB} (self : Provider)
    (messages : list Message) (w : World) :
  (exists g w', generate self messages w = (Return g, w'))
  /\ forall client exc,
       _enabled self = true -> _client self = Some client ->
       client (requests w)
         {| req_model := model (cfg self);
            req_messages := messages;
            req_temperature := temperature (cfg self);
            req_max_tokens := max_tokens (cfg self) |} = Failure exc ->
       exists suggestion w',
         generate self messages w
         = (Return (suggestion ++ u " " ++ u "(provider error: " ++ exc ++ u ")"), w')
         /\ (suggestion = SUGGEST_TIME \/ suggestion = SUGGEST_GENERIC).
Proof.
  split.
  - destruct (generate_returns self messages w) as (g & w' & Hg & _).
    exists g, w'. exact Hg.
  - intros client exc Hen Hcl Hfail.
    destruct (stub_with_note messages exc) as (suggestion & Hs & Hstub).
    exists suggestion. eexists. split; [|exact Hs].
    unfold generate, bind, record_context. rewrite Hen, Hcl.
    unfold try_except, bind, chat_completions_create, ret.
    cbn [requests set_contexts]. rewrite Hfail. cbv beta iota.
    rewrite Hstub. reflexivity.
Qed.

(** With an endpoint whose every call raises. *)
Lemma generate_absorbs_failure_witness :
  exists suggestion w',
    generate (U := latin1_db) Demo.failing_provider
      [{| role := role_user; content := u "Vamos jantar?" |}] Demo.world
    = (Return (suggestion ++ u " " ++ u "(provider error: " ++ u "boom" ++ u ")"), w')
    /\ (suggestion = SUGGEST_TIME \/ suggestion = SUGGEST_GENERIC).
Proof.
  exact (proj2 (generate_absorbs_failure (U := latin1_db) Demo.failing_provider
                  [{| role := role_user; content := u "Vamos jantar?" |}]
                  Demo.world)
           Demo.failing_client (u "boom") eq_refl eq_refl eq_refl).
Defined.


(** The sample transcript, byte for byte. *)
Example export_sample :
  files (snd (export_markdown
                {| agents := (Demo.agent (u "Rui") None, Demo.agent (u "Ana") None);
                   run := Demo.settings 2;
                   providers := ∅;
                   turns := [{| speaker := u "Rui"; text := u "Olá! " |};
                             {| speaker := u "Ana"; text := u "Até já" |}] |}
                (u "out.md") (u "Diálogo") (Some (u "pt-PT")) Demo.world))
    !! u "out.md"
  = Some (map N_of_ascii (list_ascii_of_string
       "# Diálogo

_pt-PT_

> Transcript gerado em 2026-11-04 09:30

---

**Rui**: Olá!

**Ana**: Até já

")).
Proof. vm_compute. reflexivity. Qed.


(** ** What a run does beside recording turns *)

Section Effects.
Context {U : UnicodeDB}.

(** [generate] sends one request when the provider goes to its endpoint,
    and none otherwise. *)
Lemma generate_requests (p : Provider) (messages : list Message) (w : World) :
  requests (snd (generate p messages w)) = requests w ++ sent p messages.
Proof.
  unfold generate, bind, record_context, sent, reaches_endpoint.
  destruct (_enabled p); [destruct (_client p) as [client|]|].
  - unfold try_except, bind, chat_completions_create, ret.
    cbn [requests set_contexts].
    destruct (client _ _) as [resp|exc]; reflexivity.
  - cbn. rewrite app_nil_r. reflexivity.
  - destruct (_client p); cbn; rewrite app_nil_r; reflexivity.
Qed.

Lemma printed_frame (self : TwoAgentChat) (t : ConversationTurn) (w : World) :
  files (printed self t w) = files w /\ now (printed self t w) = now w
  /\ requests (printed self t w) = requests w
  /\ stdout (printed self t w) =
       stdout w ++ (if print_transcript (run self) then [transcript_line t] else []).
Proof.
  unfold printed, transcript_line.
  destruct (print_transcript (run self)); cbn [files now requests stdout set_stdout];
    rewrite ?app_nil_r; repeat split.
Qed.

Lemma run_loop_effects (fuel : nat) (self : TwoAgentChat) (idx taken : Z) (w : World) :
  (idx = 0 \/ idx = 1)%Z -> wired self ->
  (Z.to_nat (max_messages (run self) - taken) <= fuel)%nat ->
  exists self' w',
    run_loop fuel self idx taken w = (Return self', w')
    /\ loop_effects self idx taken w self' w'.
Proof.
  apply (run_loop_elim loop_effects); clear fuel self idx taken w.
  - intros self idx taken w Hge.
    split; [reflexivity|]. split; [reflexivity|]. split; [reflexivity|].
    exists []. rewrite !app_nil_r. split; [reflexivity|].
    split; [destruct (print_transcript _); rewrite app_nil_r; reflexivity|].
    split; [exists []; rewrite app_nil_r; repeat split; constructor|].
    split; [cbn [length]; intros k Hk; lia|].
    left. cbn [length]. lia.
  - intros self idx taken w p g w1 Hidx Hwired Hlt Hp Hname Hg Hstrip t self1 w2.
    destruct (generate_returns p (build_messages_for self (agent_at self idx)) w)
      as (g0 & w0 & Hg0 & _ & _ & Hfiles & Hout & Hnow).
    rewrite Hg in Hg0. injection Hg0 as <- <-.
    pose proof (generate_requests p (build_messages_for self (agent_at self idx)) w)
      as Hreq.
    rewrite Hg in Hreq. cbn [snd] in Hreq.
    destruct (printed_frame self t w1) as (Hf2 & Hn2 & Hr2 & Ho2).
    fold w2 in Hf2, Hn2, Hr2, Ho2.
    assert (Hremote : remote_turn self t = reaches_endpoint p).
    { unfold remote_turn, t, new_turn. cbn [speaker]. rewrite Hp. reflexivity. }
    assert (Hsent : length (sent p (build_messages_for self (agent_at self idx)))
                    = length (List.filter (remote_turn self) [t])).
    { cbn [List.filter]. rewrite Hremote. unfold sent.
      destruct (reaches_endpoint p); reflexivity. }
    assert (Hfrom : Forall (fun q => exists key p messages,
                                     providers self !! key = Some p
                                     /\ q = request_of p messages)
                      (sent p (build_messages_for self (agent_at self idx)))).
    { unfold sent. destruct (reaches_endpoint p); [|constructor].
      constructor; [|constructor]. eexists _, p, _. split; [exact Hp|reflexivity]. }
    split.
    + intros Hm.
      split; [reflexivity|].
      split; [rewrite Hf2; exact Hfiles|]. split; [rewrite Hn2; exact Hnow|].
      exists [t]. split; [reflexivity|].
      split. { rewrite Ho2, Hout. destruct (print_transcript _); reflexivity. }
      split. { eexists. split; [rewrite Hr2; exact Hreq|]. split; [exact Hsent|exact Hfrom]. }
      split; [cbn [length]; intros k Hk; lia|].
      right. split; [discriminate|exact Hm].
    + intros Hm self' w'
        (Hprov & Hf & Hn & new & Hturns & Hso & (reqs & Hrq & Hlen & Hall) & Hpre & Hend).
      unfold self1, with_turn in Hprov, Hturns, Hso, Hlen, Hpre, Hend.
      cbn [providers run turns set_turns] in Hprov, Hturns, Hso, Hpre, Hend.
      split; [exact Hprov|].
      split; [rewrite Hf, Hf2; exact Hfiles|].
      split; [rewrite Hn, Hn2; exact Hnow|].
      exists (t :: new).
      split. { rewrite Hturns, <- app_assoc. reflexivity. }
      split. { rewrite Hso, Ho2, Hout, <- app_assoc.
               destruct (print_transcript _); reflexivity. }
      split.
      { exists (sent p (build_messages_for self (agent_at self idx)) ++ reqs).
        split. { rewrite Hrq, Hr2, Hreq, <- app_assoc. reflexivity. }
        split.
        - rewrite length_app, Hlen, Hsent. cbn [List.filter].
          destruct (remote_turn self t); reflexivity.
        - apply Forall_app. split; [exact Hfrom|exact Hall]. }
      split.
      { intros [|[|k]] Hk; [lia| |].
        - cbn [take]. exact Hm.
        - cbn [take]. cbn [length] in Hk.
          change (turns self ++ t :: take (S k) new)
            with (turns self ++ [t] ++ take (S k) new).
          rewrite app_assoc. apply Hpre. lia. }
      destruct Hend as [Hfull|[Hne Hag]].
      * left. cbn [length]. rewrite Hfull. lia.
      * right. split; [discriminate|exact Hag].
Qed.

(** No turn of a run on two disabled providers goes to an endpoint. *)
Lemma remote_turn_disabled (env : Env) (a b : AgentConfig) (r : RunConfig)
    (t : ConversationTurn) :
  disabled env a -> disabled env b ->
  remote_turn (TwoAgentChat_init env a b r) t = false.
Proof.
  intros Ha Hb. unfold remote_turn.
  destruct (providers (TwoAgentChat_init env a b r) !! speaker t) as [p|] eqn:Hp;
    [|reflexivity].
  unfold reaches_endpoint.
  rewrite (init_providers_disabled env a b r Ha Hb _ _ Hp).
  destruct (_client p); reflexivity.
Qed.

Lemma chat_run_effects (env : Env) (a b : AgentConfig) (r : RunConfig) (w : World) :
  exists self' w',
    chat_run env a b r w = (Return self', w')
    /\ loop_effects (TwoAgentChat_init env a b r) 0 0 w self' w'.
Proof.
  unfold chat_run, run_until_meeting_or_max.
  apply run_loop_effects; [left; reflexivity|apply wired_init|].
  cbn [run TwoAgentChat_init]. lia.
Qed.

End Effects.










(** ** Provider construction and the adapter *)

(** X8. A provider is enabled exactly when the [openai] package was
    imported, the agent names a credential variable, that variable holds
    a non-empty key, and the client could be built from the key and the
    base URL (an empty base URL counts as none). *)
Theorem provider_enabled_iff (env : Env) (c : AgentConfig) :
  _enabled (Provider_init env c) = true
  <-> HAS_OPENAI env = true
      /\ exists var key client,
           api_key_env c = Some var /\ var <> []
           /\ getenv env var = Some key /\ key <> []
           /\ OpenAI env key (if truthy (base_url c) then base_url c else None)
              = Answer client.
Proof.
  unfold Provider_init. split.
  - destruct (api_key_env c) as [[|v var]|] eqn:Ev; cbn [truthy opt_or];
      try (rewrite andb_false_r; discriminate).
    destruct (HAS_OPENAI env); [|discriminate]. cbn [andb].
    destruct (getenv env (v :: var)) as [[|k key]|] eqn:Ek; cbn [truthy opt_or];
      try discriminate.
    destruct (OpenAI env (k :: key) _) as [client|exc] eqn:Eo; [|discriminate].
    intros _. split; [reflexivity|].
    exists (v :: var), (k :: key), client. repeat split; try discriminate; assumption.
  - intros (Hh & var & key & client & Hv & Hvne & Hk & Hkne & Ho).
    rewrite Hh, Hv. destruct var as [|v var]; [congruence|]. cbn [truthy opt_or].
    rewrite Hk. destruct key as [|k key]; [congruence|]. cbn [truthy opt_or andb].
    rewrite Ho. reflexivity.
Qed.

(** X9. Every constructed provider keeps its configuration, and it is
    enabled exactly when it holds a client: the test
    [self._enabled and self._client] of [generate] is the test of either
    field alone. *)
Theorem provider_client_invariant (env : Env) (c : AgentConfig) :
  cfg (Provider_init env c) = c
  /\ (_enabled (Provider_init env c) = true
      <-> is_Some (_client (Provider_init env c)))
  /\ reaches_endpoint (Provider_init env c) = _enabled (Provider_init env c).
Proof.
  unfold Provider_init, reaches_endpoint.
  destruct (HAS_OPENAI env && truthy _);
    [destruct (OpenAI env _ _)|]; cbn [cfg _enabled _client];
    (split; [reflexivity|]); (split; [|reflexivity]);
    split; intros H; try discriminate; try (destruct H; discriminate);
    try reflexivity; eexists; reflexivity.
Qed.

Section Adapter.
Context {U : UnicodeDB}.

Lemma strip_keeps_prefix (c : N) (mid : pystr) (d : N) (rest : pystr) :
  isspace c = false -> isspace d = false ->
  strip ((c :: mid ++ [d]) ++ rest) = (c :: mid ++ [d]) ++ rstrip rest.
Proof.
  intros Hc Hd. unfold strip.
  assert (Hl : lstrip ((c :: mid ++ [d]) ++ rest) = (c :: mid ++ [d]) ++ rest)
    by (cbn [app lstrip]; rewrite Hc; reflexivity).
  rewrite Hl. unfold rstrip. rewrite rev_app_distr.
  assert (Hr : rev (c :: mid ++ [d]) = d :: rev (c :: mid)).
  { change (c :: mid ++ [d]) with ((c :: mid) ++ [d]).
    rewrite rev_app_distr. reflexivity. }
  rewrite Hr, lstrip_app_nonspace by exact Hd.
  rewrite rev_app_distr, <- Hr, rev_involutive. reflexivity.
Qed.

(** A string that begins and ends with a visible character is kept whole
    at the head of whatever is trimmed around it. *)
Lemma strip_keeps_visible (a rest : pystr) :
  match a with c :: _ => negb (isspace c) | [] => false end = true ->
  match rev a with d :: _ => negb (isspace d) | [] => false end = true ->
  strip (a ++ rest) = a ++ rstrip rest.
Proof.
  intros Hc Hd.
  destruct a as [|c a']; [discriminate|].
  destruct (rev (c :: a')) as [|d m] eqn:Er; [discriminate|].
  apply negb_true_iff in Hc, Hd.
  assert (Ha : c :: a' = rev m ++ [d]).
  { rewrite <- (rev_involutive (c :: a')), Er. reflexivity. }
  destruct (rev m) as [|c' mid] eqn:Em.
  - cbn [app] in Ha. injection Ha as -> ->.
    unfold strip. cbn [app lstrip]. rewrite Hc.
    rewrite rstrip_cons_nonspace by exact Hc. reflexivity.
  - cbn [app] in Ha. injection Ha as -> ->.
    exact (strip_keeps_prefix c' mid d rest Hc Hd).
Qed.

Lemma stub_prefix (messages : list Message) (note : pystr) :
  _stub messages note =
    (if search MEETING_RE (last_user_content messages)
     then SUGGEST_TIME else SUGGEST_GENERIC) ++ rstrip (u " " ++ note).
Proof.
  unfold _stub. destruct (search MEETING_RE _);
    apply strip_keeps_visible; vm_compute; reflexivity.
Qed.

Lemma generate_reaches (p : Provider) (client : Client) (messages : list Message)
    (w : World) :
  _enabled p = true -> _client p = Some client ->
  fst (generate p messages w) =
    match client (requests w) (request_of p messages) with
    | Answer resp =>
        Return (strip match choices resp with Some c :: _ => c | _ => [] end)
    | Failure exc => Return (_stub messages (note_error exc))
    end.
Proof.
  intros He Hc. unfold generate, bind, record_context. rewrite He, Hc.
  unfold try_except, bind, chat_completions_create, ret, request_of.
  cbn [requests set_contexts].
  destruct (client _ _) as [resp|exc]; [|reflexivity].
  cbv beta iota. cbn [fst].
  destruct (choices resp) as [|[[|c s]|] rest]; reflexivity.
Qed.

End Adapter.

(** X10. The traffic of [generate]: a provider that is enabled and holds
    a client sends exactly one request, carrying the agent's model,
    temperature and token limit and the context it was given; any other
    provider sends none.  The console and the files are not touched. *)
Theorem generate_traffic {U : UnicodeDB} (p : Provider)
    (messages : list Message) (w : World) :
  requests (snd (generate p messages w)) = requests w ++ sent p messages
  /\ files (snd (generate p messages w)) = files w
  /\ stdout (snd (generate p messages w)) = stdout w.
Proof.
  split; [apply generate_requests|].
  destruct (generate_returns p messages w) as (g & w' & -> & _ & _ & Hf & Ho & _).
  split; assumption.
Qed.

(** X11. When the endpoint answers, [generate] returns the content of the
    first choice, trimmed; an answer without choices or without content
    gives the empty string, and no fallback text is involved. *)
Theorem generate_answer_trimmed {U : UnicodeDB} (p : Provider) (client : Client)
    (messages : list Message) (w : World) (resp : Response) :
  _enabled p = true -> _client p = Some client ->
  client (requests w) (request_of p messages) = Answer resp ->
  fst (generate p messages w)
  = Return (strip match choices resp with Some c :: _ => c | _ => [] end).
Proof.
  intros He Hc Hans. rewrite (generate_reaches p client messages w He Hc), Hans.
  reflexivity.
Qed.

(** An endpoint that answers with blanks. *)
Lemma generate_answer_trimmed_witness :
  fst (generate (U := latin1_db)
         {| cfg := Demo.agent (u "Rui") None;
            _client := Some Demo.blank_client;
            _enabled := true |}
         [{| role := role_user; content := u "Olá" |}] Demo.world)
  = Return (strip match choices {| choices := [Some (u "   ")] |} with
                  | Some c :: _ => c
                  | _ => []
                  end).
Proof.
  apply (generate_answer_trimmed (U := latin1_db) _ Demo.blank_client);
    reflexivity.
Defined.

(** X12. The fallback reply keeps its suggestion whole: it is the
    suggestion chosen from the last user message, followed by the note
    with trailing blanks removed; it is never empty. *)
Theorem stub_keeps_suggestion {U : UnicodeDB} (messages : list Message)
    (note : pystr) :
  _stub messages note =
    (if search MEETING_RE (last_user_content messages)
     then SUGGEST_TIME else SUGGEST_GENERIC) ++ rstrip (u " " ++ note)
  /\ _stub messages note <> [].
Proof.
  split; [apply stub_prefix|].
  rewrite stub_prefix. destruct (search MEETING_RE _); discriminate.
Qed.

(** ** Contexts *)

Lemma role_of_replay (who : AgentConfig) (t : ConversationTurn) :
  role (replay who t) = role_user <-> speaker t <> name who.
Proof.
  unfold replay. cbn [role]. destruct (bool_decide_reflect (speaker t = name who)).
  - split; [discriminate|contradiction].
  - split; [intros _; assumption|reflexivity].
Qed.

Lemma last_user_replay (who : AgentConfig) (l : list ConversationTurn) :
  match filter (fun m => role m = role_user) (map (replay who) l) with
  | m :: _ => content m
  | [] => []
  end
  = match filter (fun t => speaker t <> name who) l with
    | t :: _ => text t
    | [] => []
    end.
Proof.
  induction l as [|t l IH]; [reflexivity|].
  cbn [map]. rewrite !filter_cons.
  destruct (decide (role (replay who t) = role_user)) as [Hr|Hr];
    destruct (decide (speaker t <> name who)) as [Hs|Hs].
  - reflexivity.
  - apply role_of_replay in Hr. contradiction.
  - apply role_of_replay in Hs. contradiction.
  - exact IH.
Qed.

(** X13. What the fallback reads: the last user message of an agent's
    context is the kickoff text while the history is empty, and afterwards
    the text of the most recent turn spoken under another name (the empty
    string when there is none). *)
Theorem last_user_content_of_context (self : TwoAgentChat) (who : AgentConfig) :
  last_user_content (build_messages_for self who) =
    match turns self with
    | [] => kickoff who
    | _ :: _ =>
        match filter (fun t => speaker t <> name who) (rev (turns self)) with
        | t :: _ => text t
        | [] => []
        end
    end.
Proof.
  destruct (turns self) as [|t0 ts] eqn:E.
  - apply last_user_kickoff. exact E.
  - unfold last_user_content, build_messages_for. rewrite E.
    set (l := t0 :: ts).
    change ([{| role := role_system; content := system_preamble who |}]
            ++ map (replay who) l)
      with ({| role := role_system; content := system_preamble who |}
            :: map (replay who) l).
    cbn [rev]. rewrite filter_app, <- map_rev.
    assert (Hsys : filter (fun m => role m = role_user)
                     [{| role := role_system; content := system_preamble who |}]
                   = []).
    { rewrite filter_cons. destruct (decide _) as [H|H]; [discriminate H|reflexivity]. }
    rewrite Hsys, app_nil_r. apply last_user_replay.
Qed.

(** X14. The shape of a context: the system preamble first, then either
    the kickoff alone (empty history) or one message per recorded turn,
    carrying the turns' texts in order; every message after the first has
    the role [user] or [assistant]. *)
Theorem context_shape (self : TwoAgentChat) (who : AgentConfig) :
  exists rest,
    build_messages_for self who
    = {| role := role_system; content := system_preamble who |} :: rest
    /\ length rest = Nat.max 1 (length (turns self))
    /\ map content rest =
         match turns self with
         | [] => [kickoff who]
         | _ :: _ => map text (turns self)
         end
    /\ Forall (fun m => role m = role_user \/ role m = role_assistant) rest.
Proof.
  unfold build_messages_for. destruct (turns self) as [|t0 ts].
  - eexists. split; [reflexivity|]. split; [reflexivity|]. split; [reflexivity|].
    constructor; [left; reflexivity|constructor].
  - exists (map (replay who) (t0 :: ts)). split; [reflexivity|].
    split; [rewrite length_map; cbn [length]; lia|].
    split; [rewrite map_map; reflexivity|].
    apply Forall_forall. intros m Hm. apply list_elem_of_In, in_map_iff in Hm.
    destruct Hm as (t & <- & _). unfold replay. cbn [role].
    destruct (bool_decide _); [right|left]; reflexivity.
Qed.

(** X15. Roles are egocentric: for two agents of different names and a
    history spoken under these names, the contexts of the two agents carry
    the same texts, and a message is the [assistant]'s in one exactly when
    it is the [user]'s in the other. *)
Theorem roles_mirror (self : TwoAgentChat) (a b : AgentConfig)
    (k : nat) (ma mb : Message) :
  name a <> name b ->
  turns self <> [] ->
  Forall (fun t => speaker t = name a \/ speaker t = name b) (turns self) ->
  build_messages_for self a !! S k = Some ma ->
  build_messages_for self b !! S k = Some mb ->
  content ma = content mb
  /\ (role ma = role_assistant <-> role mb = role_user)
  /\ (role ma = role_user <-> role mb = role_assistant).
Proof.
  intros Hab Hne Hsp Ha Hb. unfold build_messages_for in Ha, Hb.
  destruct (turns self) as [|t0 ts]; [congruence|].
  set (l := t0 :: ts) in *.
  change (map (replay a) l !! k = Some ma) in Ha.
  change (map (replay b) l !! k = Some mb) in Hb.
  rewrite list_lookup_fmap in Ha, Hb.
  destruct (l !! k) as [t|] eqn:Et; [|discriminate].
  cbn in Ha, Hb. injection Ha as <-. injection Hb as <-.
  rewrite Forall_lookup in Hsp. specialize (Hsp k t Et).
  unfold replay. cbn [role content]. split; [reflexivity|].
  destruct (bool_decide_reflect (speaker t = name a)) as [Ea|Ea];
    destruct (bool_decide_reflect (speaker t = name b)) as [Eb|Eb].
  - exfalso. congruence.
  - split; split; intros H; try reflexivity; discriminate H.
  - split; split; intros H; try reflexivity; discriminate H.
  - exfalso. destruct Hsp; contradiction.
Qed.

(** After Rui's opening, seen by Rui and by Ana. *)
Lemma roles_mirror_witness :
  content {| role := role_assistant; content := u "Olá" |}
  = content {| role := role_user; content := u "Olá" |}
  /\ (role {| role := role_assistant; content := u "Olá" |} = role_assistant
      <-> role {| role := role_user; content := u "Olá" |} = role_user)
  /\ (role {| role := role_assistant; content := u "Olá" |} = role_user
      <-> role {| role := role_user; content := u "Olá" |} = role_assistant).
Proof.
  apply (roles_mirror
           {| agents := (Demo.agent (u "Rui") None, Demo.agent (u "Ana") None);
              run := Demo.settings 2;
              providers := ∅;
              turns := [{| speaker := u "Rui"; text := u "Olá" |}] |}
           (Demo.agent (u "Rui") None) (Demo.agent (u "Ana") None) 0).
  - vm_compute. discriminate.
  - discriminate.
  - constructor; [left; reflexivity|constructor].
  - reflexivity.
  - reflexivity.
Defined.

(** ** The detector *)

(** X16. The detector reads nothing but the texts of the last two turns:
    who spoke them and what came before makes no difference. *)
Theorem meeting_agreed_reads_last_two_texts {U : UnicodeDB}
    (init : list ConversationTurn) (previous latest : ConversationTurn)
    (s1 s2 : pystr) :
  meeting_agreed (init ++ [previous; latest])
  = meeting_agreed [{| speaker := s1; text := text previous |};
                    {| speaker := s2; text := text latest |}].
Proof.
  rewrite meeting_agreed_last2.
  symmetry. exact (meeting_agreed_last2 [] _ _).
Qed.


(** ** How the two vocabularies overlap *)

Section Overlap.
Context {U : UnicodeDB}.

Lemma repeat_match_mono (step : nat -> (nat -> bool) -> bool) :
  (forall i (k k' : nat -> bool),
      (forall j, k j = true -> k' j = true) -> step i k = true -> step i k' = true) ->
  forall hi lo i (k k' : nat -> bool),
    (forall j, k j = true -> k' j = true) ->
    repeat_match step lo hi i k = true -> repeat_match step lo hi i k' = true.
Proof.
  intros Hstep hi. induction hi as [|hi IH]; intros lo i k k' Hk; cbn [repeat_match].
  - rewrite !orb_false_r. destruct lo; [apply Hk|discriminate].
  - intros H. apply orb_true_iff in H. apply orb_true_iff.
    destruct H as [H|H].
    + left. destruct lo; [apply Hk; exact H|discriminate].
    + right. revert H. apply Hstep. intros j. apply IH. exact Hk.
Qed.

(** A match stays a match under a more permissive continuation. *)
Lemma match_at_mono (ic : bool) (s : pystr) (r : regex) :
  forall i (k k' : nat -> bool),
    (forall j, k j = true -> k' j = true) ->
    match_at ic r s i k = true -> match_at ic r s i k' = true.
Proof.
  induction r as [|c|items| | | |r1 IH1 r2 IH2|r1 IH1 r2 IH2|lo hi r1 IH1];
    intros i k k' Hk; cbn [match_at].
  - apply Hk.
  - destruct (s !! i); [|discriminate].
    intros H. apply andb_prop in H. destruct H as [-> H]. apply Hk. exact H.
  - destruct (s !! i); [|discriminate].
    intros H. apply andb_prop in H. destruct H as [-> H]. apply Hk. exact H.
  - destruct (s !! i); [|discriminate].
    intros H. apply andb_prop in H. destruct H as [-> H]. apply Hk. exact H.
  - destruct (s !! i); [|discriminate].
    intros H. apply andb_prop in H. destruct H as [-> H]. apply Hk. exact H.
  - intros H. apply andb_prop in H. destruct H as [-> H]. apply Hk. exact H.
  - apply IH1. intros j. apply IH2. exact Hk.
  - intros H. apply orb_true_iff in H. apply orb_true_iff.
    destruct H as [H|H]; [left; exact (IH1 _ _ _ Hk H)|right; exact (IH2 _ _ _ Hk H)].
  - apply repeat_match_mono; [exact IH1|exact Hk].
Qed.

Lemma match_at_alternatives (ic : bool) (s : pystr) (r : regex) (i : nat)
    (k : nat -> bool) :
  match_at ic r s i k = true
  <-> exists a, In a (alternatives r) /\ match_at ic a s i k = true.
Proof.
  induction r as [|c|items| | | |r1 IH1 r2 IH2|r1 IH1 r2 IH2|lo hi r1 IH1];
    try (cbn [alternatives]; split;
         [intros H; eexists; split; [left; reflexivity|exact H]
         |intros (a & [<-|[]] & H); exact H]).
  cbn [alternatives match_at]. rewrite orb_true_iff, IH1, IH2. split.
  - intros [(a & Hin & H)|(a & Hin & H)]; exists a;
      (split; [apply in_or_app; auto|exact H]).
  - intros (a & Hin & H). apply in_app_or in Hin.
    destruct Hin as [Hin|Hin]; [left|right]; exists a; auto.
Qed.

Lemma match_at_sequence_cons (ic : bool) (s : pystr) (a : regex)
    (rest : list regex) (i : nat) (k : nat -> bool) :
  match_at ic (sequence_of (a :: rest)) s i k
  = match_at ic a s i (fun j => match_at ic (sequence_of rest) s j k).
Proof. destruct rest; reflexivity. Qed.

(** A word followed by [\b] is the word with the boundary test moved into
    the continuation. *)
Lemma match_at_word_boundary (ic : bool) (s : pystr) (w : pystr) (i : nat)
    (k : nat -> bool) :
  match_at ic (sequence_of (map Literal w ++ [AtBoundary])) s i k
  = match_at ic (word w) s i (fun j => at_boundary s j && k j).
Proof.
  unfold word. revert i. induction w as [|c w IH]; intros i; [reflexivity|].
  cbn [map app]. rewrite !match_at_sequence_cons. cbn [match_at].
  destruct (s !! i); [|reflexivity]. rewrite IH. reflexivity.
Qed.

(** A pattern character matches itself, in either case. *)
Lemma literal_matches_self (c : N) : literal_matches true c c = true.
Proof.
  unfold literal_matches. cbn [andb]. destruct (iscased c).
  - cbn [mem existsb]. rewrite N.eqb_refl. reflexivity.
  - apply N.eqb_refl.
Qed.

(** A word matches each of its spellings in upper and lower case, wherever
    it stands. *)
Lemma match_at_word (w : pystr) :
  latin1_text w = true ->
  forall (v pre post : pystr) (k : nat -> bool),
    latin1_lower v = w ->
    match_at true (word w) (pre ++ v ++ post) (length pre) k
    = k (length pre + length v)%nat.
Proof.
  unfold word. induction w as [|c w IH]; intros Hw v pre post k Hv.
  - destruct v; [|discriminate]. cbn [map sequence_of match_at length].
    rewrite Nat.add_0_r. reflexivity.
  - destruct v as [|ch v]; [discriminate|].
    cbn [latin1_lower map] in Hv. injection Hv as Hc Hv.
    cbn [latin1_text forallb] in Hw. apply andb_prop in Hw. destruct Hw as [Hc256 Hw].
    apply N.ltb_lt in Hc256.
    cbn [map]. rewrite match_at_sequence_cons. cbn [match_at].
    assert (Hat : @lookup nat N pystr _ (length pre) (pre ++ (ch :: v) ++ post) = Some ch).
    { rewrite (lookup_app_r (A := N)) by lia. rewrite Nat.sub_diag. reflexivity. }
    rewrite Hat.
    rewrite <- (literal_matches_lowered c ch Hc256), Hc, literal_matches_self.
    cbn [andb].
    pose proof (IH Hw v (pre ++ [ch]) post k Hv) as Hrec.
    rewrite <- app_assoc in Hrec. cbn [app] in Hrec.
    rewrite length_app in Hrec. cbn [length] in Hrec.
    rewrite Nat.add_1_r in Hrec. cbn [app]. rewrite Hrec. f_equal. cbn [length]. lia.
Qed.

Lemma search_at (p : Pattern) (s : pystr) (i : nat) :
  (i <= length s)%nat ->
  match_at (pat_ignorecase p) (pat_regex p) s i (fun _ => true) = true ->
  search p s = true.
Proof.
  intros Hi H. unfold search. apply existsb_exists. exists i.
  split; [apply in_seq; lia|exact H].
Qed.

Lemma search_inv (p : Pattern) (s : pystr) :
  search p s = true ->
  exists i, (i <= length s)%nat
            /\ match_at (pat_ignorecase p) (pat_regex p) s i (fun _ => true) = true.
Proof.
  unfold search. intros H. apply existsb_exists in H.
  destruct H as (i & Hin & H). apply in_seq in Hin.
  exists i. split; [lia|exact H].
Qed.

(** A word that is an alternative of the pattern at its top level is found
    wherever it stands, in either case. *)
Lemma search_unguarded (p : Pattern) (w v pre post : pystr) :
  pat_ignorecase p = true ->
  In (word w) (alternatives (pat_regex p)) ->
  latin1_text w = true -> latin1_lower v = w ->
  search p (pre ++ v ++ post) = true.
Proof.
  intros Hic Hin Hw Hv. apply (search_at p _ (length pre)).
  - rewrite length_app. lia.
  - rewrite Hic. apply match_at_alternatives. exists (word w).
    split; [exact Hin|]. rewrite (match_at_word w Hw v pre post _ Hv). reflexivity.
Qed.

End Overlap.

Lemma unguarded_words_alternatives (w : pystr) :
  In w UNGUARDED_WORDS ->
  In (word w) (alternatives (pat_regex MEETING_RE)) /\ latin1_text w = true.
Proof.
  intros Hin. unfold UNGUARDED_WORDS in Hin. cbn [In] in Hin.
  repeat (destruct Hin as [<-|Hin];
          [split; [vm_compute; repeat (first [left; reflexivity|right])
                  |vm_compute; reflexivity]|]).
  destruct Hin.
Qed.

(** X17. False positives of the proposal vocabulary: [|] binds weaker than
    [\b], so six of its words carry no word boundary on either side, and
    a text holding one of them anywhere, inside another word and in upper
    or lower case, has proposal vocabulary. *)
Theorem unguarded_words_match_anywhere {U : UnicodeDB} (w v pre post : pystr) :
  In w UNGUARDED_WORDS -> latin1_lower v = w ->
  search MEETING_RE (pre ++ v ++ post) = true.
Proof.
  intros Hin Hv. destruct (unguarded_words_alternatives w Hin) as [Halt Hw].
  exact (search_unguarded MEETING_RE w v pre post eq_refl Halt Hw Hv).
Qed.

(** "Imperfeito": no proposal, yet proposal vocabulary. *)
Lemma unguarded_words_match_anywhere_witness :
  search (U := latin1_db) MEETING_RE (u "Im" ++ u "PERFEITO" ++ u "!") = true.
Proof.
  apply (unguarded_words_match_anywhere (U := latin1_db) (u "perfeito")).
  - vm_compute. tauto.
  - vm_compute. reflexivity.
Defined.

Lemma ACCEPTANCE_RE_shape :
  pat_regex ACCEPTANCE_RE =
    sequence_of
      [AtBoundary;
       Branch (word (u "combinado"))
         (Branch (word (u "feito"))
            (Branch (word (u "perfeito"))
               (Branch (word (u "fechado")) (word (u "ok")))));
       AtBoundary].
Proof. vm_compute. reflexivity. Qed.

Lemma WORD_OK_shape :
  pat_regex WORD_OK = sequence_of (AtBoundary :: map Literal (u "ok") ++ [AtBoundary]).
Proof. vm_compute. reflexivity. Qed.

Lemma acceptance_words_in_proposals :
  In (word (u "combinado")) (alternatives (pat_regex MEETING_RE))
  /\ In (word (u "feito")) (alternatives (pat_regex MEETING_RE))
  /\ In (word (u "perfeito")) (alternatives (pat_regex MEETING_RE))
  /\ In (sequence_of (map Literal (u "fechado") ++ [AtBoundary]))
       (alternatives (pat_regex MEETING_RE)).
Proof.
  repeat split; vm_compute; repeat (first [left; reflexivity|right]).
Qed.

Section Acceptance.
Context {U : UnicodeDB}.

Lemma match_at_guarded (g : regex) (s : pystr) (i : nat) :
  match_at true (sequence_of [AtBoundary; g; AtBoundary]) s i (fun _ => true)
  = at_boundary s i && match_at true g s i (fun j => at_boundary s j && true).
Proof. reflexivity. Qed.

Lemma acceptance_is_proposal_or_ok (s : pystr) :
  search ACCEPTANCE_RE s = true ->
  search MEETING_RE s = true \/ search WORD_OK s = true.
Proof.
  intros H. apply search_inv in H. destruct H as (i & Hi & H).
  change (pat_ignorecase ACCEPTANCE_RE) with true in H.
  rewrite ACCEPTANCE_RE_shape, match_at_guarded in H.
  apply andb_prop in H. destruct H as [Hb H].
  apply match_at_alternatives in H. destruct H as (a & Hin & Ha).
  cbn [alternatives app In] in Hin.
  destruct acceptance_words_in_proposals as (H1 & H2 & H3 & H4).
  assert (Hword : forall w,
             In (word w) (alternatives (pat_regex MEETING_RE)) ->
             match_at true (word w) s i (fun j => at_boundary s j && true) = true ->
             search MEETING_RE s = true).
  { intros w Hw Hm. apply (search_at MEETING_RE s i Hi).
    change (pat_ignorecase MEETING_RE) with true.
    apply match_at_alternatives. exists (word w). split; [exact Hw|].
    revert Hm. apply match_at_mono. reflexivity. }
  destruct Hin as [<-|[<-|[<-|[<-|[<-|[]]]]]].
  - left. exact (Hword _ H1 Ha).
  - left. exact (Hword _ H2 Ha).
  - left. exact (Hword _ H3 Ha).
  - left. apply (search_at MEETING_RE s i Hi).
    change (pat_ignorecase MEETING_RE) with true.
    apply match_at_alternatives. eexists. split; [exact H4|].
    rewrite match_at_word_boundary. exact Ha.
  - right. apply (search_at WORD_OK s i Hi).
    change (pat_ignorecase WORD_OK) with true.
    rewrite WORD_OK_shape, match_at_sequence_cons. cbn [match_at].
    rewrite Hb, match_at_word_boundary. exact Ha.
Qed.

Lemma ok_is_acceptance (s : pystr) :
  search WORD_OK s = true -> search ACCEPTANCE_RE s = true.
Proof.
  intros H. apply search_inv in H. destruct H as (i & Hi & H).
  change (pat_ignorecase WORD_OK) with true in H.
  rewrite WORD_OK_shape, match_at_sequence_cons in H. cbn [match_at] in H.
  apply andb_prop in H. destruct H as [Hb H].
  rewrite match_at_word_boundary in H.
  apply (search_at ACCEPTANCE_RE s i Hi).
  change (pat_ignorecase ACCEPTANCE_RE) with true.
  rewrite ACCEPTANCE_RE_shape, match_at_guarded, Hb.
  apply match_at_alternatives. exists (word (u "ok")).
  split; [|exact H].
  cbn [alternatives app In]. do 4 right. left. reflexivity.
Qed.

End Acceptance.

(** X18. The acceptance vocabulary adds one word to the proposal
    vocabulary: a text with an acceptance word has proposal vocabulary
    unless the word is [ok], so the detector's test of the latest turn,
    acceptance or proposal, is the test "the word ok, or proposal". *)
Theorem acceptance_adds_only_ok {U : UnicodeDB} (s : pystr) :
  search ACCEPTANCE_RE s || search MEETING_RE s
  = search WORD_OK s || search MEETING_RE s.
Proof.
  destruct (search MEETING_RE s) eqn:Em; [rewrite !orb_true_r; reflexivity|].
  rewrite !orb_false_r.
  destruct (search ACCEPTANCE_RE s) eqn:Ea.
  - destruct (acceptance_is_proposal_or_ok s Ea) as [H|H]; [congruence|].
    rewrite H. reflexivity.
  - destruct (search WORD_OK s) eqn:Eo; [|reflexivity].
    rewrite (ok_is_acceptance s Eo) in Ea. discriminate.
Qed.


(** ** The fallback answering itself *)

Section Echo.
Context {U : UnicodeDB}.

Lemma time_reply_proposes : search MEETING_RE TIME_REPLY = true.
Proof. (rewrite search_latin1 by (vm_compute; reflexivity)); vm_compute; reflexivity. Qed.

Lemma new_turn_time (who : AgentConfig) : text (new_turn who TIME_REPLY) = TIME_REPLY.
Proof. unfold new_turn. cbn [text]. vm_compute. reflexivity. Qed.

(** One round of a disabled provider whose context ends on a user message
    with proposal vocabulary. *)
Lemma generate_time_reply (p : Provider) (messages : list Message) (w : World)
    (g : pystr) (w1 : World) :
  _enabled p = false ->
  search MEETING_RE (last_user_content messages) = true ->
  generate p messages w = (Return g, w1) -> g = TIME_REPLY.
Proof.
  intros Hoff Hsearch Hg.
  pose proof (generate_disabled p messages w Hoff) as Hd.
  rewrite Hg in Hd. cbn [fst] in Hd. injection Hd as ->.
  rewrite stub_unavailable, Hsearch. reflexivity.
Qed.

End Echo.




(** ** The exported file *)

Lemma utf8_decode_char (c : N) (bs rest : list N) :
  utf8_encode_char c = Some bs ->
  utf8_decode (bs ++ rest) = c :: utf8_decode rest.
Proof.
  unfold utf8_encode_char.
  destruct (c <? 0x80) eqn:E1.
  { intros [= <-]. cbn [app utf8_decode]. rewrite E1. reflexivity. }
  destruct (c <? 0x800) eqn:E2.
  { intros [= <-]. apply N.ltb_ge in E1. apply N.ltb_lt in E2.
    cbn [app utf8_decode].
    replace (0xC0 + c / 64 <? 0x80) with false
      by (symmetry; apply N.ltb_ge; zify; Z.to_euclidean_division_equations; lia).
    replace (0xC0 + c / 64 <? 0xE0) with true
      by (symmetry; apply N.ltb_lt; zify; Z.to_euclidean_division_equations; lia).
    f_equal. zify. Z.to_euclidean_division_equations. lia. }
  destruct ((0xD800 <=? c) && (c <=? 0xDFFF)) eqn:E3; [discriminate|].
  destruct (c <? 0x10000) eqn:E4.
  { intros [= <-]. apply N.ltb_ge in E1, E2. apply N.ltb_lt in E4.
    cbn [app utf8_decode].
    replace (0xE0 + c / 4096 <? 0x80) with false
      by (symmetry; apply N.ltb_ge; zify; Z.to_euclidean_division_equations; lia).
    replace (0xE0 + c / 4096 <? 0xE0) with false
      by (symmetry; apply N.ltb_ge; zify; Z.to_euclidean_division_equations; lia).
    replace (0xE0 + c / 4096 <? 0xF0) with true
      by (symmetry; apply N.ltb_lt; zify; Z.to_euclidean_division_equations; lia).
    f_equal. clear E3. zify. Z.to_euclidean_division_equations. lia. }
  destruct (c <? 0x110000) eqn:E5; [|discriminate].
  intros [= <-]. apply N.ltb_ge in E1, E2, E4. apply N.ltb_lt in E5.
  cbn [app utf8_decode].
  replace (0xF0 + c / 262144 <? 0x80) with false
    by (symmetry; apply N.ltb_ge; zify; Z.to_euclidean_division_equations; lia).
  replace (0xF0 + c / 262144 <? 0xE0) with false
    by (symmetry; apply N.ltb_ge; zify; Z.to_euclidean_division_equations; lia).
  replace (0xF0 + c / 262144 <? 0xF0) with false
    by (symmetry; apply N.ltb_ge; zify; Z.to_euclidean_division_equations; lia).
  f_equal. clear E3. zify. Z.to_euclidean_division_equations. lia.
Qed.

(** Reading back what was encoded gives the text. *)
Lemma utf8_decode_encode (s : pystr) (bs : list N) :
  utf8_encode s = Some bs -> utf8_decode bs = s.
Proof.
  revert bs. induction s as [|c s IH]; intros bs; cbn [utf8_encode].
  - intros [= <-]. reflexivity.
  - destruct (utf8_encode_char c) as [b|] eqn:Ec; [|discriminate].
    destruct (utf8_encode s) as [rest|]; [|discriminate].
    intros [= <-]. rewrite (utf8_decode_char c b rest Ec), (IH rest eq_refl).
    reflexivity.
Qed.

Lemma written_concat (chunks : list pystr) :
  utf8_encode (concat chunks)
  = if snd (written chunks) then Some (fst (written chunks)) else None.
Proof.
  induction chunks as [|c chunks IH]; [reflexivity|].
  cbn [concat written]. rewrite utf8_encode_app, IH.
  destruct (utf8_encode c) as [bs|]; [|reflexivity].
  destruct (written chunks) as [more [|]]; reflexivity.
Qed.

(** [export_markdown] is the file opened for writing and the chunks
    written in order, up to the first that cannot be encoded. *)
Lemma export_markdown_written (self : TwoAgentChat) (path title : pystr)
    (subtitle : option pystr) (w : World) :
  export_markdown self path title subtitle w =
    (if snd (written (export_chunks self title subtitle (strftime_Ymd_HM (now w))))
     then Return self else Raise (u "UnicodeEncodeError"),
     set_files
       (<[path := fst (written (export_chunks self title subtitle
                                  (strftime_Ymd_HM (now w))))]> (files w)) w).
Proof.
  unfold export_markdown, export_chunks, bind, datetime_now, open_w.
  rewrite write_at. cbn [app written].
  destruct (utf8_encode (u "# " ++ title ++ nl ++ nl)) as [b1|]; [|reflexivity].
  cbn [app]. cbn [now set_files].
  pose proof (for_each_write path turn_block (turns self)) as Hfe.
  unfold turn_block in Hfe at 1.
  destruct (truthy subtitle).
  - rewrite write_at. cbn [app written].
    destruct (utf8_encode (u "_" ++ opt_or subtitle [] ++ u "_" ++ nl ++ nl))
      as [b2|]; [|cbn [fst snd]; rewrite app_nil_r; reflexivity].
    rewrite write_at, stamp_line_encoded, Hfe.
    destruct (written (map turn_block (turns self))) as [body ok].
    cbn [fst snd]. unfold ret.
    destruct ok; rewrite <- !app_assoc; reflexivity.
  - cbn [app written]. unfold ret at 1.
    rewrite write_at, stamp_line_encoded, Hfe.
    destruct (written (map turn_block (turns self))) as [body ok].
    cbn [fst snd]. unfold ret.
    destruct ok; rewrite <- !app_assoc; reflexivity.
Qed.








(** ** The entry point *)

Lemma bind_call {A B} (o : Outcome A) (k : A -> M B) (w : World) :
  bind (call o) k w =
    match o with
    | Answer a => k a w
    | Failure exc => (Raise exc, w)
    end.
Proof. destruct o; reflexivity. Qed.

Section Main.
Context {U : UnicodeDB}.

(** Once the numbers are parsed, [main] is the run followed by the
    export. *)
Lemma main_parsed (py : Builtins) (env : Env) (nums : Numbers) (w : World) :
  parse_numbers py env = Some nums ->
  main py env w =
    (let* chat := chat_run env
                    (main_agent_a env (temp_a nums) (tokens_a nums))
                    (main_agent_b env (temp_b nums) (tokens_b nums))
                    (main_run env (budget nums) (delay nums)) in
     let* _ := export_markdown chat (main_output_path env) MAIN_TITLE
                 (Some MAIN_SUBTITLE) in
     ret tt) w.
Proof.
  unfold parse_numbers, main.
  destruct (py_float py (getenv_or env (u "TEMP_A") _)) as [ta|]; [|discriminate].
  destruct (py_int py (getenv_or env (u "TOKENS_A") _)) as [ka|]; [|discriminate].
  destruct (py_float py (getenv_or env (u "TEMP_B") _)) as [tb|]; [|discriminate].
  destruct (py_int py (getenv_or env (u "TOKENS_B") _)) as [kb|]; [|discriminate].
  destruct (py_int py (getenv_or env (u "MAX_MESSAGES") _)) as [n|]; [|discriminate].
  destruct (py_float py (getenv_or env (u "TURN_DELAY_S") _)) as [d|]; [|discriminate].
  intros [= <-]. rewrite !bind_call. reflexivity.
Qed.

(** When a number does not parse, [main] leaves the world as it was. *)
Lemma main_unparsed (py : Builtins) (env : Env) (w : World) :
  parse_numbers py env = None -> snd (main py env w) = w.
Proof.
  unfold parse_numbers, main.
  destruct (py_float py (getenv_or env (u "TEMP_A") _)) as [ta|e];
    [|intros _; rewrite bind_call; reflexivity].
  destruct (py_int py (getenv_or env (u "TOKENS_A") _)) as [ka|e];
    [|intros _; rewrite !bind_call; reflexivity].
  destruct (py_float py (getenv_or env (u "TEMP_B") _)) as [tb|e];
    [|intros _; rewrite !bind_call; reflexivity].
  destruct (py_int py (getenv_or env (u "TOKENS_B") _)) as [kb|e];
    [|intros _; rewrite !bind_call; reflexivity].
  destruct (py_int py (getenv_or env (u "MAX_MESSAGES") _)) as [n|e];
    [|intros _; rewrite !bind_call; reflexivity].
  destruct (py_float py (getenv_or env (u "TURN_DELAY_S") _)) as [d|e];
    [|intros _; rewrite !bind_call; reflexivity].
  discriminate.
Qed.

End Main.

(** X23. A number that does not parse stops [main] before anything
    happens: the six numeric settings (the two temperatures, the two token
    limits, the budget, the delay) are parsed in the order written, and
    at the first ValueError [main] raises it; no provider was built,
    nothing was printed, sent or written. *)
Theorem main_rejects_bad_numbers {U : UnicodeDB} (py : Builtins) (env : Env)
    (w : World) (exc : pystr) :
  first_failure py env = Some exc -> main py env w = (Raise exc, w).
Proof.
  unfold first_failure, main.
  destruct (py_float py (getenv_or env (u "TEMP_A") _)) as [ta|e];
    [|intros [= ->]; rewrite bind_call; reflexivity].
  destruct (py_int py (getenv_or env (u "TOKENS_A") _)) as [ka|e];
    [|intros [= ->]; rewrite !bind_call; reflexivity].
  destruct (py_float py (getenv_or env (u "TEMP_B") _)) as [tb|e];
    [|intros [= ->]; rewrite !bind_call; reflexivity].
  destruct (py_int py (getenv_or env (u "TOKENS_B") _)) as [kb|e];
    [|intros [= ->]; rewrite !bind_call; reflexivity].
  destruct (py_int py (getenv_or env (u "MAX_MESSAGES") _)) as [n|e];
    [|intros [= ->]; rewrite !bind_call; reflexivity].
  destruct (py_float py (getenv_or env (u "TURN_DELAY_S") _)) as [d|e];
    [|intros [= ->]; rewrite !bind_call; reflexivity].
  discriminate.
Qed.

(** MAX_MESSAGES=muitas *)
Lemma main_rejects_bad_numbers_witness :
  main (U := latin1_db) Sample.builtins
    (Sample.offline_with [(u "MAX_MESSAGES", u "muitas")]) Sample.disk
  = (Raise (u "invalid literal for int()"), Sample.disk).
Proof.
  apply (main_rejects_bad_numbers (U := latin1_db)). vm_compute. reflexivity.
Defined.

Lemma written_ok (chunks : list pystr) :
  Forall (fun c => is_Some (utf8_encode c)) chunks -> snd (written chunks) = true.
Proof.
  induction 1 as [|c chunks [bs Hc] _ IH]; [reflexivity|].
  cbn [written]. rewrite Hc. destruct (written chunks) as [more ok]. exact IH.
Qed.

Section MainRuns.
Context {U : UnicodeDB}.

Lemma main_opening_no_proposal : search MEETING_RE MAIN_OPENING_A = false.
Proof. (rewrite search_latin1 by (vm_compute; reflexivity)); vm_compute; reflexivity. Qed.

Lemma main_agents_offline (env : Env) (nums : Numbers) :
  HAS_OPENAI env = false ->
  disabled env (main_agent_a env (temp_a nums) (tokens_a nums))
  /\ disabled env (main_agent_b env (temp_b nums) (tokens_b nums)).
Proof.
  intros H. unfold disabled, Provider_init. rewrite H. split; reflexivity.
Qed.

(** The history of [main]'s agents on the local fallback. *)
Lemma main_offline_history (env : Env) (nums : Numbers) (w : World) :
  HAS_OPENAI env = false ->
  exists self' w',
    chat_run env (main_agent_a env (temp_a nums) (tokens_a nums))
      (main_agent_b env (temp_b nums) (tokens_b nums))
      (main_run env (budget nums) (delay nums)) w = (Return self', w')
    /\ turns self' = offline_history (Z.to_nat (budget nums)).
Proof.
  intros Hoff. destruct (main_agents_offline env nums Hoff) as [Ha Hb].
  destruct (chat_run_fallback env _ _ (main_run env (budget nums) (delay nums)) w
              Ha Hb main_opening_no_proposal)
    as (self' & w' & Hrun & Hlen & Hall & Hsp).
  exists self', w'. split; [exact Hrun|].
  cbn [max_messages main_run] in Hlen.
  apply list_eq. intros k. unfold offline_history. rewrite list_lookup_fmap.
  destruct (turns self' !! k) as [t|] eqn:Et.
  - assert (Hk : (k < Z.to_nat (budget nums))%nat).
    { rewrite <- Hlen. apply lookup_lt_Some in Et. exact Et. }
    rewrite lookup_seq_lt by exact Hk. cbn [fmap option_fmap option_map Nat.add].
    rewrite Forall_lookup in Hall. pose proof (Hall k t Et) as Ht.
    pose proof (Hsp k t Et) as Hs. cbv beta in Ht.
    destruct t as [sp tx]. cbn [speaker text] in Hs, Ht. subst tx. rewrite Hs.
    destruct (Nat.even k); reflexivity.
  - apply lookup_ge_None in Et. rewrite Hlen in Et.
    rewrite lookup_seq_ge by exact Et. reflexivity.
Qed.

Lemma offline_block_encodable (k : nat) :
  is_Some (utf8_encode
             (turn_block {| speaker := if Nat.even k then MAIN_NAME_A else MAIN_NAME_B;
                            text := GENERIC_REPLY |})).
Proof.
  unfold turn_block. cbn [speaker text]. rewrite generic_reply_trimmed.
  destruct (Nat.even k); vm_compute; eexists; reflexivity.
Qed.

Lemma offline_document_encodable (self : TwoAgentChat) (n : nat) (d : datetime) :
  turns self = offline_history n ->
  snd (written (export_chunks self MAIN_TITLE (Some MAIN_SUBTITLE)
                  (strftime_Ymd_HM d))) = true.
Proof.
  intros Hturns. apply written_ok. unfold export_chunks.
  change (truthy (Some MAIN_SUBTITLE)) with true. cbv iota.
  apply Forall_app. split.
  { constructor; [vm_compute; eexists; reflexivity|constructor]. }
  apply Forall_app. split.
  { constructor; [vm_compute; eexists; reflexivity|constructor]. }
  apply Forall_app. split.
  { constructor; [rewrite stamp_line_encoded; eexists; reflexivity|constructor]. }
  rewrite Hturns. unfold offline_history. rewrite map_map.
  apply Forall_forall. intros c Hc. apply list_elem_of_In, in_map_iff in Hc.
  destruct Hc as (k & <- & _). apply offline_block_encodable.
Qed.

End MainRuns.

(** X24. PRINT_TRANSCRIPT set to [0], [false] or [False] silences
    [main]: whatever the providers answer, and whether or not the numbers
    parse, nothing is printed. *)
Theorem main_quiet {U : UnicodeDB} (py : Builtins) (env : Env) (w : World) :
  In (getenv_or env (u "PRINT_TRANSCRIPT") (u "1")) [u "0"; u "false"; u "False"] ->
  stdout (snd (main py env w)) = stdout w.
Proof.
  intros Hflag.
  assert (Hquiet : main_print_transcript env = false).
  { unfold main_print_transcript. apply negb_false_iff, bool_decide_eq_true.
    apply list_elem_of_In. exact Hflag. }
  destruct (parse_numbers py env) as [nums|] eqn:Ep.
  - rewrite (main_parsed py env nums w Ep).
    destruct (chat_run_effects env
                (main_agent_a env (temp_a nums) (tokens_a nums))
                (main_agent_b env (temp_b nums) (tokens_b nums))
                (main_run env (budget nums) (delay nums)) w)
      as (self' & w1 & Hrun & _ & _ & _ & new & _ & Hout & _).
    cbn [run TwoAgentChat_init print_transcript main_run] in Hout.
    rewrite Hquiet, app_nil_r in Hout.
    unfold bind at 1. rewrite Hrun.
    unfold bind at 1. rewrite export_markdown_written.
    destruct (snd (written _)); exact Hout.
  - rewrite (main_unparsed py env w Ep). reflexivity.
Qed.

(** PRINT_TRANSCRIPT=false *)
Lemma main_quiet_witness :
  stdout (snd (main (U := latin1_db) Sample.builtins
                 (Sample.offline_with [(u "PRINT_TRANSCRIPT", u "false");
                                       (u "MAX_MESSAGES", u "2")])
                 Sample.disk))
  = stdout Sample.disk.
Proof.
  apply (main_quiet (U := latin1_db)). vm_compute. tauto.
Defined.




(** ** From the endpoint to the history, from the history to the file *)

(** The recorded text for a trimmed reply: the reply, or the placeholder
    when it is empty. *)
Lemma new_turn_reply (who : AgentConfig) (g : pystr) :
  strip g = g ->
  new_turn who g = {| speaker := name who; text := str_or g (u "...") |}.
Proof.
  intros Hg. unfold new_turn. f_equal.
  destruct g as [|c g']; cbn [str_or].
  - exact placeholder_text.
  - exact Hg.
Qed.



